(** * Minesweeper board engine (src/components/Minesweeper.tsx)

    A shallow embedding of the board logic of the React component and of
    the two event handlers that drive it, followed by the properties of
    the engine: adjacency counts, mine placement, flood-fill reveal, win
    detection and the session state machine. *)

From stdpp Require Import base option list gmap strings.
From Stdlib Require Import ZArith Lia.

#[local] Open Scope Z_scope.

(** ** Cells and boards *)

(** [type Cell]: the fields of the TypeScript object type. *)
Record Cell : Type := mkCell {
  x : Z;
  y : Z;
  isMine : bool;
  isRevealed : bool;
  isFlagged : bool;
  adjacent : Z;
}.

(** [type GameStatus = "playing" | "won" | "lost"]. *)
Inductive GameStatus : Type := playing | won | lost.

#[global] Instance GameStatus_eq_dec : EqDecision GameStatus.
Proof. solve_decision. Defined.

(** [Cell[][]]: an array of rows; [board[y][x]] is the cell of column [x]
    in row [y]. *)
Abbreviation Board := (list (list Cell)).

(** A grid coordinate, written [(x, y)] as in the source. *)
Abbreviation Coord := (Z * Z)%type.

(** The single-field assignments of the source. *)
Definition setMine (c : Cell) : Cell :=
  mkCell (x c) (y c) true (isRevealed c) (isFlagged c) (adjacent c).
Definition setRevealed (c : Cell) : Cell :=
  mkCell (x c) (y c) (isMine c) true (isFlagged c) (adjacent c).
Definition setFlagged (v : bool) (c : Cell) : Cell :=
  mkCell (x c) (y c) (isMine c) (isRevealed c) v (adjacent c).
Definition setAdjacent (n : Z) (c : Cell) : Cell :=
  mkCell (x c) (y c) (isMine c) (isRevealed c) (isFlagged c) n.

(** ** Results of a run

    A JavaScript call either returns, or throws (here always the
    [TypeError] of reading a property of [undefined]), or is still
    running when the fuel of the model is used up. *)
Inductive result (A : Type) : Type :=
  | Done (a : A)
  | TypeError
  | OutOfFuel.
Arguments Done {A} a.
Arguments TypeError {A}.
Arguments OutOfFuel {A}.

(** Sequencing: the first throw or the end of the fuel ends the run.  The
    [x ← r; k] notation is the one of stdpp's [MBind]. *)
#[global] Instance result_bind : MBind result := fun A B k r =>
  match r with
  | Done a => k a
  | TypeError => TypeError
  | OutOfFuel => OutOfFuel
  end.

(** A [for] loop over the values of [l], threading the loop state. *)
Fixpoint for_each {A S} (l : list A) (body : A -> S -> result S) (s : S) : result S :=
  match l with
  | [] => Done s
  | a :: l' => s' ← body a s; for_each l' body s'
  end.

(** ** Array access as JavaScript does it *)

(** [arr[i]]: [undefined] (here [None]) outside of [0 .. length-1]. *)
Definition index {A} (arr : list A) (i : Z) : option A :=
  if decide (0 <= i) then arr !! Z.to_nat i else None.

(** [board[y][x]] read for a property: indexing [undefined] throws, and so
    does reading a field of an [undefined] cell. *)
Definition cellAt (board : Board) (x y : Z) : option Cell :=
  row ← index board y; index row x.

Definition readCell (board : Board) (x y : Z) : result Cell :=
  match cellAt board x y with
  | Some c => Done c
  | None => TypeError
  end.

(** [board[y][x].f = v], performed on a cell that has just been read. *)
Definition update (board : Board) (x y : Z) (f : Cell -> Cell) : Board :=
  if decide (0 <= x /\ 0 <= y)
  then alter (alter f (Z.to_nat x)) (Z.to_nat y) board
  else board.

(** [board.length] and [board[0].length]; the latter throws on an empty
    array of rows. *)
Definition rowsOf (board : Board) : Z := Z.of_nat (length board).
Definition colsOf (board : Board) : result Z :=
  match index board 0 with
  | Some row => Done (Z.of_nat (length row))
  | None => TypeError
  end.

(** ** Board logic *)

(** A length that [Array.from({length: n}, f)] accepts: for [n >= 2^32] it
    throws a [RangeError]. *)
Definition arrayLength (n : Z) : Prop := n < 2 ^ 32.

(** [createEmptyBoard], for lengths that [Array.from] accepts
    ([arrayLength]): [Array.from({length: n}, f)] builds [f] at
    [0 .. n-1], and no element for a negative length. *)
Definition createEmptyBoard (rows cols : Z) : Board :=
  (fun y => (fun x => mkCell x y false false false 0) <$> seqZ 0 cols) <$> seqZ 0 rows.

(** The two [for (let d = -1; d <= 1; d++)] ranges. *)
Definition deltas : list Z := [-1; 0; 1].

(** The inner double loop of [placeMines]: the number of mined cells
    around [(x, y)], read with the bounds test of the source. *)
Definition countAround (board : Board) (rows cols x y : Z) : result Z :=
  for_each deltas (fun dy count =>
    for_each deltas (fun dx count =>
      if (dx =? 0) && (dy =? 0) then Done count
      else
        let ny := y + dy in
        let nx := x + dx in
        if (0 <=? ny) && (ny <? rows) && (0 <=? nx) && (nx <? cols) then
          c ← readCell board nx ny;
          Done (if isMine c then count + 1 else count)
        else Done count) count) 0.

(** The second phase of [placeMines]: [adjacent] of every cell that is not
    a mine. *)
Definition computeAdjacent (board : Board) (rows cols : Z) : result Board :=
  for_each (seqZ 0 rows) (fun y board =>
    for_each (seqZ 0 cols) (fun x board =>
      c ← readCell board x y;
      if isMine c then Done board
      else
        count ← countAround board rows cols x y;
        Done (update board x y (setAdjacent count))) board) board.

(** The rejection-sampling loop of [placeMines].  Each element of [rnd] is
    the outcome [(x, y)] of one round of the two
    [Math.floor(Math.random() * n)] draws; the loop is still running when
    the draws are used up. *)
Fixpoint placeLoop (board : Board) (mines : Z) (initial : Coord)
    (placed : Z) (rnd : list Coord) : result Board :=
  if decide (placed < mines) then
    match rnd with
    | [] => OutOfFuel
    | (x, y) :: rnd' =>
        if (x =? initial.1) && (y =? initial.2) then
          placeLoop board mines initial placed rnd'
        else
          c ← readCell board x y;
          if isMine c then placeLoop board mines initial placed rnd'
          else placeLoop (update board x y setMine) mines initial (placed + 1) rnd'
    end
  else Done board.

Definition placeMines (board : Board) (mines : Z) (initial : Coord)
    (rnd : list Coord) : result Board :=
  let rows := rowsOf board in
  cols ← colsOf board;
  board ← placeLoop board mines initial 0 rnd;
  computeAdjacent board rows cols.

(** The pushes of [revealCell] for a cell at [(x, y)]; the head of the list
    is the top of the stack. *)
Definition pushNeighbours (rows cols x y : Z) (stack : list Coord) : list Coord :=
  foldl (fun stack dy =>
    foldl (fun stack dx =>
      if (dx =? 0) && (dy =? 0) then stack
      else
        let nx := x + dx in
        let ny := y + dy in
        if (0 <=? nx) && (nx <? cols) && (0 <=? ny) && (ny <? rows)
        then (nx, ny) :: stack
        else stack) stack deltas) stack deltas.

(** The state of the [while] loop of [revealCell]. *)
Record Fill : Type := mkFill {
  fboard : Board;
  frontier : list Coord;
  visited : gset Coord;
}.

(** One round of the loop body for the coordinate [p] taken from the
    frontier, [rest] being what remains of the frontier.  The key
    [`${x},${y}`] of the visited set determines the pair [(x, y)]. *)
Definition visit (rows cols : Z) (p : Coord) (board : Board)
    (rest : list Coord) (seen : gset Coord) : result Fill :=
  if decide (p ∈ seen) then Done (mkFill board rest seen)
  else
    let seen := {[ p ]} ∪ seen in
    cell ← readCell board p.1 p.2;
    if isRevealed cell || isFlagged cell then Done (mkFill board rest seen)
    else
      let board := update board p.1 p.2 setRevealed in
      if (adjacent cell =? 0) && negb (isMine cell)
      then Done (mkFill board (pushNeighbours rows cols p.1 p.2 rest) seen)
      else Done (mkFill board rest seen).

(** [while (stack.length) { ... stack.pop() ... }]. *)
Fixpoint revealLoop (fuel : nat) (rows cols : Z) (st : Fill) : result Board :=
  match frontier st with
  | [] => Done (fboard st)
  | p :: rest =>
      match fuel with
      | O => OutOfFuel
      | S fuel' =>
          st' ← visit rows cols p (fboard st) rest (visited st);
          revealLoop fuel' rows cols st'
      end
  end.

(** Rounds that the loop is given: every coordinate is visited once and
    pushes at most eight others (see [revealLoop_enough]). *)
Definition revealFuel (rows cols : Z) : nat := S (8 * Z.to_nat rows * Z.to_nat cols).

Definition revealCell (board : Board) (x y : Z) : result Board :=
  let rows := rowsOf board in
  cols ← colsOf board;
  revealLoop (revealFuel rows cols) rows cols (mkFill board [(x, y)] ∅).

(** [checkWin]: the two counters of the nested [for ... of] loops.  The
    parameter [mines] is unused, as in the source. *)
Definition checkWin (board : Board) (mines : Z) : bool :=
  let '(revealed, total) :=
    foldl (fun acc row =>
      foldl (fun '(revealed, total) cell =>
        let revealed := if negb (isMine cell) && isRevealed cell then revealed + 1 else revealed in
        let total := if negb (isMine cell) then total + 1 else total in
        (revealed, total)) acc row) (0, 0) board in
  revealed =? total.

(** [countFlags]: [board.flat().filter(c => c.isFlagged).length]. *)
Definition countFlags (board : Board) : Z :=
  Z.of_nat (length (filter (fun c => isFlagged c = true) (mjoin board))).

(** ** The component state and its handlers *)

(** The keys of [DIFFICULTIES] and their presets. *)
Inductive Difficulty : Type := Beginner | Intermediate | Expert.

Record Preset : Type := mkPreset { rows : Z; cols : Z; mines : Z }.

Definition DIFFICULTIES (d : Difficulty) : Preset :=
  match d with
  | Beginner => mkPreset 9 9 10
  | Intermediate => mkPreset 16 16 40
  | Expert => mkPreset 16 30 99
  end.

(** The [useState] cells of the component.  The interval handle of the
    clock is left out: the interval is alive exactly while a started game
    is played, and it drives [timer] once a second (see [tick]). *)
Record Session : Type := mkSession {
  difficulty : Difficulty;
  board : Board;
  status : GameStatus;
  started : bool;
  timer : Z;
}.

(** How a handler ends: it returns, it throws, or it is still running when
    the random draws are used up.  The session carried is the state after
    the [set...] calls the handler made before it ended. *)
Inductive outcome : Type :=
  | Returned (s : Session)
  | Thrown (s : Session)
  | Running.

(** [board.map((row) => row.map((cell) => ({ ...cell })))]. *)
Definition copyBoard (b : Board) : Board :=
  (fun row : list Cell => (fun cell => mkCell (x cell) (y cell) (isMine cell) (isRevealed cell)
                             (isFlagged cell) (adjacent cell)) <$> row) <$> b.

(** [newBoard.map((row) => row.map((c) => c.isMine ? { ...c, f: true } : c))]. *)
Definition mapMines (f : Cell -> Cell) (b : Board) : Board :=
  (fun row : list Cell => (fun c => if isMine c then f c else c) <$> row) <$> b.

(** [resetGame], for the preset of the current difficulty. *)
Definition resetGame (s : Session) : Session :=
  let p := DIFFICULTIES (difficulty s) in
  mkSession (difficulty s) (createEmptyBoard (rows p) (cols p)) playing false 0.

(** [setDifficulty(d)] followed by the effect that runs [resetGame] when
    [difficulty] changes. *)
Definition changeDifficulty (d : Difficulty) (s : Session) : Session :=
  resetGame (mkSession d (board s) (status s) (started s) (timer s)).

(** The session of the first render, after the mount effect. *)
Definition initialSession : Session :=
  resetGame (mkSession Beginner [] playing false 0).

(** [handleCellClick].  The variable [cell] of the source is a reference
    to the object at [newBoard[y][x]], which [placeMines] mutates in place:
    it is read again at that position after the placement. *)
Definition handleCellClick (s : Session) (x y : Z) (rnd : list Coord) : outcome :=
  let mines := mines (DIFFICULTIES (difficulty s)) in
  if decide (status s <> playing) then Returned s
  else
    let newBoard := copyBoard (board s) in
    match cellAt newBoard x y with
    | None => Thrown s
    | Some cell =>
        if isFlagged cell || isRevealed cell then Returned s
        else
          match (if started s then Done newBoard
                 else placeMines newBoard mines (x, y) rnd) with
          | TypeError => Thrown s
          | OutOfFuel => Running
          | Done newBoard =>
              let s := mkSession (difficulty s) (board s) (status s) true (timer s) in
              let cell := default cell (cellAt newBoard x y) in
              if isMine cell then
                let newBoard := update newBoard x y setRevealed in
                Returned (mkSession (difficulty s) (mapMines setRevealed newBoard)
                            lost (started s) (timer s))
              else
                match revealCell newBoard x y with
                | TypeError => Thrown s
                | OutOfFuel => Running
                | Done newBoard =>
                    if checkWin newBoard mines then
                      Returned (mkSession (difficulty s) (mapMines (setFlagged true) newBoard)
                                  won (started s) (timer s))
                    else
                      Returned (mkSession (difficulty s) newBoard
                                  (status s) (started s) (timer s))
                end
          end
    end.

(** [handleCellRightClick]; [e.preventDefault()] does not touch the
    session. *)
Definition handleCellRightClick (s : Session) (x y : Z) : outcome :=
  if bool_decide (status s <> playing) || negb (started s) then Returned s
  else
    let newBoard := copyBoard (board s) in
    match cellAt newBoard x y with
    | None => Thrown s
    | Some cell =>
        if isRevealed cell then Returned s
        else
          Returned (mkSession (difficulty s)
                      (update newBoard x y (setFlagged (negb (isFlagged cell))))
                      (status s) (started s) (timer s))
    end.

(** The actions the component offers, and the session each leads to. *)
Inductive Action : Type :=
  | Click (x y : Z) (rnd : list Coord)
  | RightClick (x y : Z)
  | Restart
  | SelectDifficulty (d : Difficulty).

Definition act (s : Session) (a : Action) : outcome :=
  match a with
  | Click x y rnd => handleCellClick s x y rnd
  | RightClick x y => handleCellRightClick s x y
  | Restart => Returned (resetGame s)
  | SelectDifficulty d => Returned (changeDifficulty d s)
  end.

(** One second of the clock: [setTimer((t) => t + 1)], which the interval
    of the timer effect runs while [started && status === "playing"]. *)
Definition tick (s : Session) : Session :=
  mkSession (difficulty s) (board s) (status s) (started s) (timer s + 1).

(** The sessions an observer can see: a handler that throws leaves the
    state its [set...] calls made, and the clock ticks while a started
    game is played. *)
Inductive reachable : Session -> Prop :=
  | reach_initial : reachable initialSession
  | reach_returned s a s' : reachable s -> act s a = Returned s' -> reachable s'
  | reach_thrown s a s' : reachable s -> act s a = Thrown s' -> reachable s'
  | reach_tick s :
      reachable s -> started s = true -> status s = playing -> reachable (tick s).

(** ** Vocabulary of the statements *)

(** A rectangular grid of [rows] rows of [cols] cells each. *)
Definition Rect (b : Board) (rows cols : Z) : Prop :=
  rowsOf b = rows /\ Forall (fun row => Z.of_nat (length row) = cols) b.

Definition inBounds (rows cols : Z) (p : Coord) : Prop :=
  0 <= p.1 < cols /\ 0 <= p.2 < rows.

(** Two distinct coordinates that touch by a side or a corner. *)
Definition adj8 (p q : Coord) : Prop :=
  p <> q /\ -1 <= q.1 - p.1 <= 1 /\ -1 <= q.2 - p.2 <= 1.

(** The eight coordinates around [p]. *)
Definition neighbours8 (p : Coord) : list Coord :=
  [(p.1 - 1, p.2 - 1); (p.1, p.2 - 1); (p.1 + 1, p.2 - 1);
   (p.1 - 1, p.2);                     (p.1 + 1, p.2);
   (p.1 - 1, p.2 + 1); (p.1, p.2 + 1); (p.1 + 1, p.2 + 1)].

(** Whether the board has a mined cell at [p]. *)
Definition mineAt (b : Board) (p : Coord) : bool :=
  match cellAt b p.1 p.2 with
  | Some c => isMine c
  | None => false
  end.

(** The brute-force count: the neighbours of [p] on the board that are
    mined. *)
Definition mineNeighbours (b : Board) (p : Coord) : Z :=
  Z.of_nat (length (filter (fun q => mineAt b q = true) (neighbours8 p))).

(** The number of cells of the board with [isMine = true]. *)
Definition countMines (b : Board) : Z :=
  Z.of_nat (length (filter (fun c => isMine c = true) (mjoin b))).

(** The two quantities of the win test, counted over all cells. *)
Definition revealedSafe (b : Board) : Z :=
  Z.of_nat (length (filter (fun c => isMine c = false /\ isRevealed c = true) (mjoin b))).
Definition totalSafe (b : Board) : Z :=
  Z.of_nat (length (filter (fun c => isMine c = false) (mjoin b))).

(** ** Vocabulary of the flood fill *)

(** A cell the fill expands from: hidden, not flagged, no mine around and
    not a mine. *)
Definition opens (b : Board) (p : Coord) : Prop :=
  exists c, cellAt b p.1 p.2 = Some c /\
    isRevealed c = false /\ isFlagged c = false /\
    adjacent c = 0 /\ isMine c = false.

(** The coordinates the fill gets to from [s]: [s] itself, and the
    in-bounds neighbours of every cell it expands from. *)
Inductive reach (b : Board) (rows cols : Z) (s : Coord) : Coord -> Prop :=
  | reach_start : reach b rows cols s s
  | reach_next p q :
      reach b rows cols s p -> opens b p -> adj8 p q -> inBounds rows cols q ->
      reach b rows cols s q.

(** What the fill does to the cell at a coordinate it got to. *)
Definition touch (c : Cell) : Cell :=
  if isRevealed c || isFlagged c then c else setRevealed c.

(** One round of the fill with a frontier in any order: any coordinate of
    the frontier may be taken next, so that where the pushes land in the
    list does not matter.  [revealLoop] always takes the head (a stack); a
    queue takes the coordinate that was pushed first. *)
Inductive fillStep (rows cols : Z) : Fill -> Fill -> Prop :=
  | fill_take st l1 p l2 st' :
      frontier st = l1 ++ p :: l2 ->
      visit rows cols p (fboard st) (l1 ++ l2) (visited st) = Done st' ->
      fillStep rows cols st st'.

(** A complete run of the fill in some order, from the start coordinate to
    an empty frontier. *)
Definition fillRun (b : Board) (rows cols : Z) (s : Coord) (b' : Board) : Prop :=
  exists st, rtc (fillStep rows cols) (mkFill b [s] ∅) st /\
    frontier st = [] /\ fboard st = b'.

(** The cell a board shows at [p] once the coordinates of [seen] have been
    visited. *)
Definition marked (seen : gset Coord) (p : Coord) (c : Cell) : Cell :=
  if decide (p ∈ seen) then touch c else c.

(** All coordinates of a [rows] by [cols] grid. *)
Definition allCoords (rows cols : Z) : list Coord :=
  y ← seqZ 0 rows; x ← seqZ 0 cols; [(x, y)].

(** The invariant of the fill loop started at [s] on the board [b0]. *)
Record fillInv (b0 : Board) (rows cols : Z) (s : Coord) (st : Fill) : Prop := {
  inv_rect : Rect (fboard st) rows cols;
  inv_frontier : forall p, p ∈ frontier st ->
    inBounds rows cols p /\ reach b0 rows cols s p;
  inv_visited : forall p, p ∈ visited st ->
    inBounds rows cols p /\ reach b0 rows cols s p;
  inv_start : s ∈ visited st \/ s ∈ frontier st;
  inv_closed : forall p q, p ∈ visited st -> opens b0 p -> adj8 p q ->
    inBounds rows cols q -> q ∈ visited st \/ q ∈ frontier st;
  inv_cells : forall x y,
    cellAt (fboard st) x y = marked (visited st) (x, y) <$> cellAt b0 x y;
}.

(** What is left to do: the frontier, and eight pushes for every
    coordinate not visited yet. *)
Definition fillMeasure (rows cols : Z) (st : Fill) : nat :=
  (length (frontier st) +
   8 * size (list_to_set (allCoords rows cols) ∖ visited st : gset Coord))%nat.

(** The region the fill spreads through from [s]: the cells it expands
    from, connected to [s] through such cells. *)
Inductive zeroRegion (b : Board) (s : Coord) : Coord -> Prop :=
  | region_start : opens b s -> zeroRegion b s s
  | region_next p q :
      zeroRegion b s p -> adj8 p q -> opens b q -> zeroRegion b s q.

(** A hidden cell without a flag. *)
Definition coverable (b : Board) (p : Coord) : Prop :=
  exists c, cellAt b p.1 p.2 = Some c /\ isRevealed c = false /\ isFlagged c = false.

(** The cells a fill from [s] is to reveal: the start, the region and the
    cells that border the region, as far as they are hidden and bear no
    flag. *)
Definition fillTarget (b : Board) (rows cols : Z) (s p : Coord) : Prop :=
  (p = s \/ zeroRegion b s p \/
   exists r, zeroRegion b s r /\ adj8 r p /\ inBounds rows cols p) /\
  coverable b p.

(** The cells that are hidden on [b] and revealed on [b']. *)
Definition newlyRevealed (b b' : Board) (p : Coord) : Prop :=
  exists c c', cellAt b p.1 p.2 = Some c /\ cellAt b' p.1 p.2 = Some c' /\
    isRevealed c = false /\ isRevealed c' = true.

(** The set as the specification words it: the connected component of the
    start among the cells with no mine around (flags stop it), and the
    cells that border the component, flagged cells apart. *)
Definition zeroCell (b : Board) (p : Coord) : Prop :=
  exists c, cellAt b p.1 p.2 = Some c /\ adjacent c = 0 /\ isFlagged c = false.

Inductive zeroComponent (b : Board) (s : Coord) : Coord -> Prop :=
  | component_start : zeroCell b s -> zeroComponent b s s
  | component_next p q :
      zeroComponent b s p -> adj8 p q -> zeroCell b q -> zeroComponent b s q.

Definition claimedRevealed (b : Board) (s p : Coord) : Prop :=
  (zeroComponent b s p \/
   exists r, zeroComponent b s r /\ adj8 r p /\ is_Some (cellAt b p.1 p.2)) /\
  (exists c, cellAt b p.1 p.2 = Some c /\ isFlagged c = false).

(** What the adjacency pass makes of the cell at [p], on a board whose
    mines are those of [b]. *)
Definition adjust (b : Board) (p : Coord) (c : Cell) : Cell :=
  if isMine c then c else setAdjacent (mineNeighbours b p) c.

(** The cell at [p] once the coordinates of [done] have been passed. *)
Definition adjusted (b : Board) (done : list Coord) (p : Coord) (c : Cell) : Cell :=
  if decide (p ∈ done) then adjust b p c else c.

(** A boolean as a count. *)
Definition b2z (v : bool) : Z := if v then 1 else 0.

(** A board without mines: the board [placeMines] is given. *)
Definition mineFree (b : Board) : Prop :=
  forall x y c, cellAt b x y = Some c -> isMine c = false.

(** Every cell that is not a mine bears the number of mines around it. *)
Definition adjacencyOK (b : Board) : Prop :=
  forall x y c, cellAt b x y = Some c -> isMine c = false ->
    adjacent c = mineNeighbours b (x, y).

(** ** Vocabulary of the placement loop *)

(** A draw the loop accepts: not the excluded coordinate, and a cell that
    is not a mine yet. *)
Definition eligible (b : Board) (initial p : Coord) : bool :=
  negb ((p.1 =? initial.1) && (p.2 =? initial.2)) &&
  match cellAt b p.1 p.2 with
  | Some c => negb (isMine c)
  | None => false
  end.

(** The number of coordinates of the grid a draw can still place a mine
    at. *)
Definition freeCells (b : Board) (rows cols : Z) (initial : Coord) : Z :=
  Z.of_nat (length (filter (fun p => eligible b initial p = true) (allCoords rows cols))).

(** An unending sequence of draws, each a coordinate of the grid, in which
    every coordinate of the grid keeps coming: what a sequence of uniform
    draws is with probability 1. *)
Definition fairDraws (rows cols : Z) (draws : nat -> Coord) : Prop :=
  (forall n, inBounds rows cols (draws n)) /\
  forall p n, inBounds rows cols p -> exists m, (n <= m)%nat /\ draws m = p.

(** The first [n] draws of a sequence. *)
Definition firstDraws (draws : nat -> Coord) (n : nat) : list Coord :=
  draws <$> seq 0 n.


(** Draws that go through the grid row by row, again and again. *)
Definition roundRobin (rows cols : Z) (n : nat) : Coord :=
  (Z.of_nat n mod cols, (Z.of_nat n / cols) mod rows).



(** ** Invariants of the session *)

(** [b'] is [b] with [f] applied to the cell at every coordinate. *)
Definition cellwise (f : Coord -> Cell -> Cell) (b b' : Board) : Prop :=
  forall x y, cellAt b' x y = f (x, y) <$> cellAt b x y.

(** No mine is revealed. *)
Definition minesHidden (b : Board) : Prop :=
  forall x y c, cellAt b x y = Some c -> isMine c = true -> isRevealed c = false.

(** No cell is revealed and flagged at once. *)
Definition noneBoth (b : Board) : Prop :=
  forall x y c, cellAt b x y = Some c -> ~ (isRevealed c = true /\ isFlagged c = true).

(** What holds of every session the component gets to. *)
Record sessionInv (s : Session) : Prop := {
  si_rect : Rect (board s) (rows (DIFFICULTIES (difficulty s)))
                           (cols (DIFFICULTIES (difficulty s)));
  si_fresh : started s = false ->
    forall x y c, cellAt (board s) x y = Some c ->
      isMine c = false /\ isRevealed c = false /\ isFlagged c = false;
  si_adjacent : started s = true -> adjacencyOK (board s);
  si_hidden : status s <> lost -> minesHidden (board s);
  si_both : forall x y c, cellAt (board s) x y = Some c ->
    isRevealed c = true -> isFlagged c = true -> isMine c = true /\ status s = lost;
}.

(** ** Boards and sessions of the examples *)

(** A row of three cells with no mine around, the middle one revealed. *)
Definition corridor : Board :=
  [[mkCell 0 0 false false false 0; mkCell 1 0 false true false 0;
    mkCell 2 0 false false false 0]].

(** The actions of a list, one after the other; a handler that throws
    leaves the session its [set...] calls made. *)
Fixpoint run (s : Session) (actions : list Action) : option Session :=
  match actions with
  | [] => Some s
  | a :: actions' =>
      match act s a with
      | Returned s' | Thrown s' => run s' actions'
      | Running => None
      end
  end.

(** Draws that mine the last row of the beginner grid and the cell above
    its right end. *)
Definition lastRowDraws : list Coord :=
  [(0, 8); (1, 8); (2, 8); (3, 8); (4, 8); (5, 8); (6, 8); (7, 8); (8, 8); (8, 7)].

(** A beginner game after a first click on a numbered cell and a flag on
    the mine in the corner. *)
Definition flaggedSession : Session :=
  Eval vm_compute in
    default initialSession
      (run initialSession [Click 0 7 lastRowDraws; RightClick 8 8]).

(** The same game two seconds later. *)
Definition laterSession : Session := tick (tick flaggedSession).

(** The same game after a click on another mine. *)
Definition lostSession : Session :=
  Eval vm_compute in
    default initialSession (run flaggedSession [Click 7 8 []]).

(** Draws that mine the third row of the beginner grid and the last
    corner. *)
Definition thirdRowDraws : list Coord :=
  [(0, 2); (1, 2); (2, 2); (3, 2); (4, 2); (5, 2); (6, 2); (7, 2); (8, 2); (8, 8)].

(** A beginner game in which the second cell of the first row was revealed
    while its neighbours in that row bore flags, since removed. *)
Definition corridorSession : Session :=
  Eval vm_compute in
    default initialSession
      (run initialSession
         [Click 0 3 thirdRowDraws; RightClick 0 0; RightClick 2 0; Click 1 0 [];
          RightClick 0 0; RightClick 2 0]).

(** A board of three rows of four cells with two mines, and what
    [placeMines] makes of the empty board with the draws that give it. *)
Definition smallDraws : list Coord := [(0, 0); (1, 1); (1, 1); (3, 2)].

Definition smallBoard : Board :=
  Eval vm_compute in
    match placeMines (createEmptyBoard 3 4) 2 (0, 0) smallDraws with
    | Done b => b
    | _ => []
    end.

(** ** What the component renders *)

(** [cellNumberColors]: the class of the digit shown for a count. *)
Definition cellNumberColors : list string :=
  [""; "text-[#0A2FFF]"; "text-[#00BFAE]"; "text-[#FF3B3B]"; "text-[#7C3AED]";
   "text-[#FF6F00]"; "text-[#00F0FF]"; "text-[#FF00C8]"; "text-black"].

(** The child of the button of a cell: a bomb, the count, a flag, or
    nothing. *)
Inductive Content : Type :=
  | BombIcon
  | Digits (n : Z)
  | FlagIcon
  | NoContent.

Definition cellContent (cell : Cell) : Content :=
  if isRevealed cell then
    if isMine cell then BombIcon
    else if 0 <? adjacent cell then Digits (adjacent cell)
    else NoContent
  else if isFlagged cell then FlagIcon
  else NoContent.

(** [disabled={cell.isRevealed || status !== "playing"}]. *)
Definition cellDisabled (st : GameStatus) (cell : Cell) : bool :=
  isRevealed cell || bool_decide (st <> playing).

(** The class [cellNumberColors[cell.adjacent]] that is appended for a
    revealed cell that is not a mine and has mines around; [None] inside is
    the [undefined] of an index outside the table. *)
Definition numberColour (cell : Cell) : option (option string) :=
  if isRevealed cell && negb (isMine cell) && (0 <? adjacent cell)
  then Some (index cellNumberColors (adjacent cell))
  else None.

(** [{mines - countFlags(board)}]: the counter beside the flag. *)
Definition minesLeft (s : Session) : Z :=
  mines (DIFFICULTIES (difficulty s)) - countFlags (board s).

(** ** Invariants of the game *)

(** What holds, beside [sessionInv], of every session the component gets
    to: the mines are those of the preset once the game has started, and
    the status tells how far the board is. *)
Record gameInv (s : Session) : Prop := {
  gi_base : sessionInv s;
  gi_started : status s <> playing -> started s = true;
  gi_count : started s = true ->
    countMines (board s) = mines (DIFFICULTIES (difficulty s));
  gi_playing : status s = playing ->
    checkWin (board s) (mines (DIFFICULTIES (difficulty s))) = false;
  gi_won : status s = won ->
    checkWin (board s) (mines (DIFFICULTIES (difficulty s))) = true /\
    forall x y c, cellAt (board s) x y = Some c -> isMine c = true -> isFlagged c = true;
  gi_lost : status s = lost ->
    checkWin (board s) (mines (DIFFICULTIES (difficulty s))) = false /\
    forall x y c, cellAt (board s) x y = Some c -> isMine c = true -> isRevealed c = true;
}.

(** A cell and what a click makes of it: the mine, the count and the
    coordinates are kept, and what was revealed or flagged stays so. *)
Definition grows (c c' : Cell) : Prop :=
  isMine c' = isMine c /\ adjacent c' = adjacent c /\ x c' = x c /\ y c' = y c /\
  (isRevealed c = true -> isRevealed c' = true) /\
  (isFlagged c = true -> isFlagged c' = true).

(** A beginner game after a first click on a numbered cell above the mined
    last row. *)
Definition firstSession : Session :=
  Eval vm_compute in
    default initialSession (run initialSession [Click 0 7 lastRowDraws]).

(** [laterSession] after a click on a mine. *)
Definition lostLaterSession : Session :=
  Eval vm_compute in
    default initialSession (run laterSession [Click 7 8 []]).

(** A beginner game won one second after its first click, by a click in
    the first corner. *)
Definition wonLaterSession : Session :=
  Eval vm_compute in
    default initialSession (run (tick firstSession) [Click 0 0 []]).

(** [corridor] after a fill from its first cell. *)
Definition corridorFilled : Board :=
  [[mkCell 0 0 false true false 0; mkCell 1 0 false true false 0;
    mkCell 2 0 false false false 0]].

(** * Properties *)

(** ** Arrays and boards *)

Lemma index_Some {A} (arr : list A) i a :
  index arr i = Some a <-> 0 <= i /\ arr !! Z.to_nat i = Some a.
Proof. unfold index. case_decide; [tauto|]. split; [done | tauto]. Qed.

Lemma index_range {A} (arr : list A) i :
  is_Some (index arr i) <-> 0 <= i < Z.of_nat (length arr).
Proof.
  unfold index. case_decide.
  - rewrite lookup_lt_is_Some. lia.
  - split; [intros [? ?]; done | lia].
Qed.

Lemma index_of_nat {A} (arr : list A) (n : nat) :
  index arr (Z.of_nat n) = arr !! n.
Proof. unfold index. case_decide; [by rewrite Nat2Z.id | lia]. Qed.

Lemma cellAt_Some b x y c :
  cellAt b x y = Some c <->
  exists row, index b y = Some row /\ index row x = Some c.
Proof.
  unfold cellAt. destruct (index b y) as [row|]; simpl.
  - split; [eauto | by intros (? & [= <-] & ?)].
  - split; [done | by intros (? & ? & ?)].
Qed.

Lemma cellAt_update b x y f x' y' :
  cellAt (update b x y f) x' y' =
  if decide (x = x' /\ y = y') then f <$> cellAt b x y else cellAt b x' y'.
Proof.
  unfold update, cellAt, index.
  destruct (decide (0 <= x /\ 0 <= y)) as [[Hx Hy]|Hneg].
  - destruct (decide (x = x' /\ y = y')) as [[<- <-]|Hne].
    + rewrite !decide_True by done. rewrite list_lookup_alter_eq.
      destruct (b !! Z.to_nat y) as [row|]; simpl; [|done].
      rewrite !decide_True by done. by rewrite list_lookup_alter_eq.
    + destruct (decide (0 <= y')); [|done].
      destruct (decide (y = y')) as [<-|Hy'].
      * rewrite list_lookup_alter_eq.
        destruct (b !! Z.to_nat y) as [row|]; simpl; [|done].
        destruct (decide (0 <= x')); [|done].
        rewrite list_lookup_alter_ne; [done|]. intros ?. apply Hne. split; lia.
      * rewrite list_lookup_alter_ne; [done|]. lia.
  - destruct (decide (x = x' /\ y = y')) as [[<- <-]|Hne]; [|done].
    destruct (decide (0 <= y)); [|done].
    destruct (b !! Z.to_nat y) as [row|]; simpl; [|done].
    destruct (decide (0 <= x)); [lia|done].
Qed.

Lemma cellAt_update_eq b x y f :
  cellAt (update b x y f) x y = f <$> cellAt b x y.
Proof. rewrite cellAt_update. by rewrite decide_True. Qed.

Lemma cellAt_update_ne b x y f x' y' :
  (x, y) <> (x', y') -> cellAt (update b x y f) x' y' = cellAt b x' y'.
Proof.
  intros Hne. rewrite cellAt_update. rewrite decide_False; [done|].
  intros [-> ->]. done.
Qed.

Lemma Rect_update b rows cols x y f :
  Rect b rows cols -> Rect (update b x y f) rows cols.
Proof.
  intros [Hr Hc]. unfold update. case_decide; [|done]. split.
  - unfold rowsOf. by rewrite length_alter.
  - apply Forall_alter; [done|]. intros row _ Hrow. by rewrite length_alter.
Qed.

Lemma Rect_index b rows cols y row :
  Rect b rows cols -> index b y = Some row -> Z.of_nat (length row) = cols.
Proof.
  intros [_ Hc] [_ Hy]%index_Some.
  rewrite Forall_lookup in Hc. eauto.
Qed.

Lemma cellAt_inBounds b rows cols x y :
  Rect b rows cols -> is_Some (cellAt b x y) <-> inBounds rows cols (x, y).
Proof.
  intros HR. unfold inBounds; simpl. split.
  - intros [c [row [Hy Hx]]%cellAt_Some].
    pose proof (Rect_index _ _ _ _ _ HR Hy) as Hlen.
    assert (is_Some (index b y)) as Hy'%index_range by eauto.
    assert (is_Some (index row x)) as Hx'%index_range by eauto.
    destruct HR as [Hr _]. unfold rowsOf in Hr. lia.
  - intros [Hx Hy]. destruct HR as [Hr Hc].
    assert (is_Some (index b y)) as [row Hrow].
    { apply index_range. unfold rowsOf in Hr. lia. }
    assert (is_Some (index row x)) as [c Hcell].
    { apply index_range. erewrite Rect_index; [done| |done]. by split. }
    exists c. apply cellAt_Some. eauto.
Qed.

Lemma cellAt_None_outside b rows cols x y :
  Rect b rows cols -> ~ inBounds rows cols (x, y) -> cellAt b x y = None.
Proof.
  intros HR Hout. apply eq_None_not_Some. by rewrite cellAt_inBounds.
Qed.

Lemma colsOf_Rect b rows cols :
  Rect b rows cols -> 0 < rows -> colsOf b = Done cols.
Proof.
  intros HR Hpos. unfold colsOf.
  assert (is_Some (index b 0)) as [row Hrow].
  { apply index_range. destruct HR as [Hr _]. unfold rowsOf in Hr. lia. }
  rewrite Hrow. f_equal. by eapply Rect_index.
Qed.

(** Two grids of the same size with the same cells are the same board. *)
Lemma board_ext b1 b2 rows cols :
  Rect b1 rows cols -> Rect b2 rows cols ->
  (forall x y, cellAt b1 x y = cellAt b2 x y) -> b1 = b2.
Proof.
  intros HR1 HR2 Hcells. apply list_eq_same_length with (Z.to_nat rows).
  - destruct HR2 as [Hr _]. unfold rowsOf in Hr. lia.
  - destruct HR1 as [Hr _]. unfold rowsOf in Hr. lia.
  - intros i row1 row2 Hi H1 H2. rewrite <- index_of_nat in H1, H2.
    apply list_eq_same_length with (Z.to_nat cols).
    + pose proof (Rect_index _ _ _ _ _ HR2 H2). lia.
    + pose proof (Rect_index _ _ _ _ _ HR1 H1). lia.
    + intros j c1 c2 Hj Hc1 Hc2. rewrite <- index_of_nat in Hc1, Hc2.
      assert (cellAt b1 (Z.of_nat j) (Z.of_nat i) = Some c1) as E1
        by (apply cellAt_Some; eauto).
      assert (cellAt b2 (Z.of_nat j) (Z.of_nat i) = Some c2) as E2
        by (apply cellAt_Some; eauto).
      rewrite Hcells in E1. congruence.
Qed.

(** ** Win detection *)

Lemma cellAt_elem_of b x y c : cellAt b x y = Some c -> c ∈ mjoin b.
Proof.
  intros (row & [_ Hrow]%index_Some & [_ Hc]%index_Some)%cellAt_Some.
  apply list_elem_of_join. exists row. split; by eapply list_elem_of_lookup_2.
Qed.

Lemma elem_of_cellAt b c : c ∈ mjoin b -> exists x y, cellAt b x y = Some c.
Proof.
  intros (row & [j Hc]%list_elem_of_lookup_1 & [i Hrow]%list_elem_of_lookup_1)%list_elem_of_join.
  exists (Z.of_nat j), (Z.of_nat i). apply cellAt_Some. exists row.
  by rewrite !index_of_nat.
Qed.

Section counters.
Let step : Z * Z -> Cell -> Z * Z := fun '(revealed, total) cell =>
  let revealed := if negb (isMine cell) && isRevealed cell then revealed + 1 else revealed in
  let total := if negb (isMine cell) then total + 1 else total in
  (revealed, total).

Lemma checkWin_row row revealed total :
  foldl step (revealed, total) row =
  (revealed + Z.of_nat (length (filter (fun c => isMine c = false /\ isRevealed c = true) row)),
   total + Z.of_nat (length (filter (fun c => isMine c = false) row))).
Proof.
  revert revealed total. induction row as [|c row IH]; intros revealed total.
  - simpl. f_equal; lia.
  - simpl. rewrite IH. rewrite !filter_cons.
    destruct c as [cx cy [] [] fl adj]; simpl;
      repeat case_decide; simpl; try tauto; try (f_equal; lia);
      exfalso; intuition congruence.
Qed.

Lemma checkWin_rows b revealed total :
  foldl (fun acc row => foldl step acc row) (revealed, total) b =
  (revealed + revealedSafe b, total + totalSafe b).
Proof.
  unfold revealedSafe, totalSafe.
  revert revealed total. induction b as [|row b IH]; intros revealed total.
  - simpl. f_equal; lia.
  - simpl. rewrite checkWin_row, IH. rewrite !filter_app, !length_app.
    f_equal; lia.
Qed.
End counters.

Lemma checkWin_counts b m :
  checkWin b m = true <-> revealedSafe b = totalSafe b.
Proof.
  unfold checkWin. rewrite checkWin_rows. simpl. apply Z.eqb_eq.
Qed.

Lemma safe_counts_le (l : list Cell) :
  (length (filter (fun c => isMine c = false /\ isRevealed c = true) l)
   <= length (filter (fun c => isMine c = false) l))%nat.
Proof.
  induction l as [|c l IH]; [done|]. rewrite !filter_cons.
  repeat case_decide; simpl; try lia. tauto.
Qed.

Lemma safe_counts_eq (l : list Cell) :
  length (filter (fun c => isMine c = false /\ isRevealed c = true) l)
  = length (filter (fun c => isMine c = false) l) <->
  forall c, c ∈ l -> isMine c = false -> isRevealed c = true.
Proof.
  induction l as [|c l IH].
  - split; [|done]. intros _ c Hc. by apply elem_of_nil in Hc.
  - pose proof (safe_counts_le l) as Hle. rewrite !filter_cons.
    setoid_rewrite elem_of_cons.
    repeat case_decide; simpl.
    + split.
      * intros Heq c' [->|Hc']; [tauto|]. apply IH; [lia|done].
      * intros Hall. f_equal. apply IH. eauto.
    + tauto.
    + split.
      * intros Heq. lia.
      * intros Hall. exfalso. destruct (isRevealed c) eqn:Hr; [tauto|].
        specialize (Hall c (or_introl eq_refl)). intuition congruence.
    + split.
      * intros Heq c' [->|Hc']; [tauto|]. by apply IH.
      * intros Hall. apply IH. eauto.
Qed.

Lemma checkWin_all_revealed b m :
  checkWin b m = true <->
  forall c, c ∈ mjoin b -> isMine c = false -> isRevealed c = true.
Proof.
  rewrite checkWin_counts. unfold revealedSafe, totalSafe.
  rewrite <- safe_counts_eq. lia.
Qed.

(** C3. [checkWin] answers [true] exactly when the number of revealed
    cells that are not mines equals the number of cells that are not
    mines; a board with a hidden cell that is not a mine is not won. *)
Theorem checkWin_spec (b : Board) (m : Z) :
  (checkWin b m = true <-> revealedSafe b = totalSafe b) /\
  ((exists x y c, cellAt b x y = Some c /\ isMine c = false /\ isRevealed c = false) ->
   checkWin b m = false).
Proof.
  split; [apply checkWin_counts|].
  intros (x & y & c & Hc & Hm & Hr).
  destruct (checkWin b m) eqn:Hwin; [|done].
  rewrite checkWin_all_revealed in Hwin.
  specialize (Hwin c (cellAt_elem_of _ _ _ _ Hc) Hm). congruence.
Qed.

(** ** Flood fill *)

Lemma adj8_neighbours8 p q : q ∈ neighbours8 p <-> adj8 p q.
Proof.
  destruct p as [px py], q as [qx qy]. unfold neighbours8, adj8. simpl.
  rewrite !elem_of_cons, elem_of_nil. split.
  - intros H. repeat destruct H as [H|H]; try done;
      simplify_eq; (split; [intros Heq; inversion Heq; lia | lia]).
  - intros (Hne & Hx & Hy).
    assert (qx = px - 1 \/ qx = px \/ qx = px + 1) as Hqx by lia.
    assert (qy = py - 1 \/ qy = py \/ qy = py + 1) as Hqy by lia.
    destruct Hqx as [-> | [-> | ->]], Hqy as [-> | [-> | ->]]; try done; tauto.
Qed.

Lemma inBounds_test rows cols nx ny :
  (0 <=? nx) && (nx <? cols) && (0 <=? ny) && (ny <? rows) = true <->
  inBounds rows cols (nx, ny).
Proof. unfold inBounds. simpl. lia. Qed.

Lemma adj8_deltas x y q :
  adj8 (x, y) q <->
  exists dy dx, dy ∈ deltas /\ dx ∈ deltas /\ ~ (dx = 0 /\ dy = 0) /\ q = (x + dx, y + dy).
Proof.
  unfold adj8, deltas. destruct q as [qx qy]. simpl. split.
  - intros (Hne & Hx & Hy). exists (qy - y), (qx - x).
    rewrite !elem_of_cons, !elem_of_nil. split_and!; [lia | lia | | f_equal; lia].
    intros [? ?]. apply Hne. f_equal; lia.
  - intros (dy & dx & Hdy & Hdx & Hnz & Heq). inversion Heq; subst.
    rewrite !elem_of_cons, !elem_of_nil in Hdy, Hdx.
    split; [|lia]. intros Heq'. inversion Heq'. lia.
Qed.

Section pushes.
Context (rows cols x y : Z).

Let inner (dy : Z) : list Coord -> Z -> list Coord := fun stack dx =>
  if (dx =? 0) && (dy =? 0) then stack
  else
    let nx := x + dx in
    let ny := y + dy in
    if (0 <=? nx) && (nx <? cols) && (0 <=? ny) && (ny <? rows)
    then (nx, ny) :: stack
    else stack.

Lemma elem_of_push_inner dy l stack q :
  q ∈ foldl (inner dy) stack l <->
  (exists dx, dx ∈ l /\ ~ (dx = 0 /\ dy = 0) /\ q = (x + dx, y + dy) /\
     inBounds rows cols q) \/ q ∈ stack.
Proof.
  revert stack. induction l as [|d l IH]; intros stack; simpl.
  - split; [tauto|]. intros [(dx & Hdx & _)|H]; [|done]. by apply elem_of_nil in Hdx.
  - rewrite IH. setoid_rewrite elem_of_cons. unfold inner.
    destruct ((d =? 0) && (dy =? 0)) eqn:Hz.
    + split.
      * intros [(dx & Hdx & Hrest)|H]; [|tauto]. left. exists dx. tauto.
      * intros [(dx & [->|Hdx] & Hnz & Hrest)|H]; [lia| |tauto].
        left. exists dx. tauto.
    + simpl. destruct ((0 <=? x + d) && (x + d <? cols) && (0 <=? y + dy) && (y + dy <? rows)) eqn:Hb.
      * apply inBounds_test in Hb. rewrite elem_of_cons. split.
        -- intros [(dx & Hdx & Hrest)|[->|H]]; [left; exists dx; tauto | | tauto].
           left. exists d. split_and!; [tauto | lia | done | done].
        -- intros [(dx & [->|Hdx] & Hnz & Hrest)|H]; [tauto | | tauto].
           left. exists dx. tauto.
      * split.
        -- intros [(dx & Hdx & Hrest)|H]; [|tauto]. left. exists dx. tauto.
        -- intros [(dx & [->|Hdx] & Hnz & -> & Hin)|H]; [ | |tauto].
           ++ apply inBounds_test in Hin. congruence.
           ++ left. exists dx. tauto.
Qed.

Lemma length_push_inner dy l stack :
  (length (foldl (inner dy) stack l) <= length l + length stack)%nat.
Proof.
  revert stack. induction l as [|d l IH]; intros stack; simpl; [lia|].
  etrans; [apply IH|]. unfold inner.
  repeat match goal with |- context [if ?c then _ else _] => destruct c end;
    simpl; lia.
Qed.

Lemma elem_of_push_outer l stack q :
  q ∈ foldl (fun stack dy => foldl (inner dy) stack deltas) stack l <->
  (exists dy dx, dy ∈ l /\ dx ∈ deltas /\ ~ (dx = 0 /\ dy = 0) /\
     q = (x + dx, y + dy) /\ inBounds rows cols q) \/ q ∈ stack.
Proof.
  revert stack. induction l as [|d l IH]; intros stack; cbn [foldl].
  - split; [tauto|]. intros [(dy & dx & Hdy & _)|H]; [|done].
    by apply elem_of_nil in Hdy.
  - rewrite IH, elem_of_push_inner. setoid_rewrite elem_of_cons. split.
    + intros [(dy & dx & Hrest)|[(dx & Hrest)|H]]; [| |tauto].
      * left. exists dy, dx. tauto.
      * left. exists d, dx. tauto.
    + intros [(dy & dx & [->|Hdy] & Hrest)|H]; [| |tauto].
      * right. left. exists dx. tauto.
      * left. exists dy, dx. tauto.
Qed.

Lemma length_push_centre stack :
  (length (foldl (inner 0) stack deltas) <= 2 + length stack)%nat.
Proof.
  unfold deltas, inner. simpl.
  repeat match goal with |- context [if ?c then _ else _] => destruct c end;
    simpl; lia.
Qed.

Lemma elem_of_pushNeighbours stack q :
  q ∈ pushNeighbours rows cols x y stack <->
  (adj8 (x, y) q /\ inBounds rows cols q) \/ q ∈ stack.
Proof.
  etrans; [apply (elem_of_push_outer deltas stack q)|]. rewrite adj8_deltas. split.
  - intros [(dy & dx & ?)|?]; [left; split; [exists dy, dx|]|]; tauto.
  - intros [[(dy & dx & ?) ?]|?]; [left; exists dy, dx|]; tauto.
Qed.

Lemma length_pushNeighbours stack :
  (length (pushNeighbours rows cols x y stack) <= 8 + length stack)%nat.
Proof.
  change (pushNeighbours rows cols x y stack) with
    (foldl (inner 1) (foldl (inner 0) (foldl (inner (-1)) stack deltas) deltas) deltas).
  pose proof (length_push_inner (-1) deltas stack) as H1.
  pose proof (length_push_centre (foldl (inner (-1)) stack deltas)) as H2.
  pose proof (length_push_inner 1 deltas
    (foldl (inner 0) (foldl (inner (-1)) stack deltas) deltas)) as H3.
  change (length deltas) with 3%nat in H1, H3. lia.
Qed.
End pushes.

Lemma elem_of_allCoords rows cols p :
  p ∈ allCoords rows cols <-> inBounds rows cols p.
Proof.
  unfold allCoords, inBounds. destruct p as [px py]. simpl.
  rewrite list_elem_of_bind. split.
  - intros (y & (x & Hp & Hx%elem_of_seqZ)%list_elem_of_bind & Hy%elem_of_seqZ).
    apply list_elem_of_singleton in Hp. inversion Hp; subst. lia.
  - intros [Hx Hy]. exists py. split; [|apply elem_of_seqZ; lia].
    apply list_elem_of_bind. exists px. split; [|apply elem_of_seqZ; lia].
    by apply list_elem_of_singleton.
Qed.

Lemma length_bind_const {A B} (f : A -> list B) (n : nat) (l : list A) :
  (forall a, length (f a) = n) -> length (l ≫= f) = (length l * n)%nat.
Proof.
  intros Hf. induction l as [|a l IH]; [done|].
  rewrite bind_cons, length_app, IH, Hf. simpl. lia.
Qed.

Lemma length_allCoords rows cols :
  length (allCoords rows cols) = (Z.to_nat rows * Z.to_nat cols)%nat.
Proof.
  unfold allCoords.
  rewrite (length_bind_const _ (Z.to_nat cols)), length_seqZ; [done|].
  intros y. rewrite (length_bind_const _ 1%nat), length_seqZ; [lia|done].
Qed.

Lemma size_list_to_set_le (l : list Coord) :
  (size (list_to_set l : gset Coord) <= length l)%nat.
Proof.
  induction l as [|p l IH].
  - rewrite list_to_set_nil, size_empty. done.
  - rewrite list_to_set_cons. simpl length.
    destruct (decide (p ∈ (list_to_set l : gset Coord))) as [Hin|Hout].
    + replace ({[p]} ∪ list_to_set l : gset Coord) with (list_to_set l : gset Coord)
        by set_solver. lia.
    + rewrite size_union by set_solver. rewrite size_singleton. lia.
Qed.

(** ** The invariant of the fill *)

Section fill.
Context (b0 : Board) (rows cols : Z) (s : Coord).
Hypothesis HRect : Rect b0 rows cols.
Hypothesis Hstart : inBounds rows cols s.

Lemma fillInv_initial : fillInv b0 rows cols s (mkFill b0 [s] ∅).
Proof.
  split; simpl.
  - done.
  - intros p ->%list_elem_of_singleton. split; [done | constructor].
  - intros p Hp. set_solver.
  - right. by apply list_elem_of_singleton.
  - intros p q Hp. set_solver.
  - intros x y. destruct (cellAt b0 x y); [simpl|done].
    unfold marked. by rewrite decide_False by set_solver.
Qed.

Lemma fillMeasure_initial :
  (fillMeasure rows cols (mkFill b0 [s] ∅) <= revealFuel rows cols)%nat.
Proof.
  unfold fillMeasure, revealFuel. simpl.
  replace (list_to_set (allCoords rows cols) ∖ ∅ : gset Coord)
    with (list_to_set (allCoords rows cols) : gset Coord) by set_solver.
  pose proof (size_list_to_set_le (allCoords rows cols)) as H.
  rewrite length_allCoords in H. lia.
Qed.

Lemma visit_step st l1 p l2 :
  fillInv b0 rows cols s st ->
  frontier st = l1 ++ p :: l2 ->
  exists st', visit rows cols p (fboard st) (l1 ++ l2) (visited st) = Done st' /\
    fillInv b0 rows cols s st' /\
    (fillMeasure rows cols st' < fillMeasure rows cols st)%nat.
Proof.
  intros [HR Hfr Hvis Hs Hcl Hcells] Hsplit.
  assert (forall q, q ∈ frontier st <-> q = p \/ q ∈ l1 ++ l2) as Hmem.
  { intros q. rewrite Hsplit, !elem_of_app, elem_of_cons. tauto. }
  destruct (Hfr p) as [Hpin Hpreach]; [apply Hmem; tauto|].
  unfold visit. destruct (decide (p ∈ visited st)) as [Hseen|Hnew].
  - eexists. split; [done|]. split.
    + split; simpl; try done.
      * intros q Hq. apply Hfr, Hmem. tauto.
      * destruct Hs as [?|[->|?]%Hmem]; tauto.
      * intros p' q Hp' Ho Ha Hq.
        destruct (Hcl p' q Hp' Ho Ha Hq) as [?|[->|?]%Hmem]; tauto.
    + unfold fillMeasure. simpl. rewrite Hsplit, !length_app. simpl. lia.
  - assert (exists c, cellAt b0 p.1 p.2 = Some c) as [c Hc].
    { apply (cellAt_inBounds b0 rows cols); [done|]. by destruct p. }
    assert (cellAt (fboard st) p.1 p.2 = Some c) as Hread.
    { rewrite Hcells, Hc. simpl. unfold marked.
      rewrite decide_False; [done|]. by destruct p. }
    unfold readCell. rewrite Hread. simpl.
    assert (forall q, q ∈ ({[p]} ∪ visited st : gset Coord) <-> q = p \/ q ∈ visited st)
      as Hmem' by set_solver.
    assert (size (list_to_set (allCoords rows cols) ∖ ({[p]} ∪ visited st) : gset Coord)
            < size (list_to_set (allCoords rows cols) ∖ visited st : gset Coord))%nat
      as Hsize.
    { apply subset_size.
      assert (p ∈ (list_to_set (allCoords rows cols) : gset Coord)) as Hp'.
      { apply elem_of_list_to_set, elem_of_allCoords. done. }
      set_solver. }
    assert (forall x y, isRevealed c || isFlagged c = true ->
      cellAt (fboard st) x y = marked ({[p]} ∪ visited st) (x, y) <$> cellAt b0 x y)
      as Hsame.
    { intros x y Hrf. rewrite Hcells. unfold marked.
      destruct p as [px py]; simpl in *.
      destruct (decide (px = x /\ py = y)) as [[-> ->]|Hne].
      - rewrite Hc. simpl. rewrite decide_False by done.
        rewrite decide_True by set_solver. unfold touch. by rewrite Hrf.
      - destruct (cellAt b0 x y) as [c'|]; [simpl|done].
        destruct (decide ((x, y) ∈ visited st)).
        + by rewrite decide_True by set_solver.
        + rewrite decide_False; [done|]. intros [Heq|?]%Hmem'; [|done].
          inversion Heq; subst. tauto. }
    destruct (isRevealed c || isFlagged c) eqn:Hrf.
    + eexists. split; [done|]. split.
      * split; simpl.
        -- done.
        -- intros q Hq. apply Hfr, Hmem. tauto.
        -- intros q [->|Hq]%Hmem'; [done | by apply Hvis].
        -- rewrite Hmem'. destruct Hs as [?|[->|?]%Hmem]; tauto.
        -- intros p' q [->|Hp']%Hmem' Ho Ha Hq.
           ++ destruct Ho as (c' & Hc' & Hr' & Hf' & _).
              rewrite Hc in Hc'. inversion Hc'; subst.
              rewrite Hr', Hf' in Hrf. done.
           ++ rewrite Hmem'.
              destruct (Hcl p' q Hp' Ho Ha Hq) as [?|[->|?]%Hmem]; tauto.
        -- intros x y. by apply Hsame.
      * unfold fillMeasure. simpl. rewrite Hsplit, !length_app. simpl. lia.
    + assert (touch c = setRevealed c) as Htouch by (unfold touch; by rewrite Hrf).
      assert (forall x y,
        cellAt (update (fboard st) p.1 p.2 setRevealed) x y
        = marked ({[p]} ∪ visited st) (x, y) <$> cellAt b0 x y) as Hcells'.
      { intros x y. rewrite cellAt_update, Hcells. unfold marked.
        destruct p as [px py]; simpl in *.
        destruct (decide (px = x /\ py = y)) as [[-> ->]|Hne].
        - rewrite Hc. simpl. rewrite decide_False by done.
          rewrite decide_True by set_solver. by rewrite Htouch.
        - rewrite ?Hcells. unfold marked.
          destruct (cellAt b0 x y) as [c'|]; [simpl|done].
          destruct (decide ((x, y) ∈ visited st)).
          + by rewrite decide_True by set_solver.
          + rewrite decide_False; [done|]. intros [Heq|?]%Hmem'; [|done].
            inversion Heq; subst. tauto. }
      clear Hsame.
      destruct ((adjacent c =? 0) && negb (isMine c)) eqn:Hopen.
      * assert (opens b0 p) as Hop.
        { exists c. apply orb_false_iff in Hrf as [? ?].
          apply andb_true_iff in Hopen as [?%Z.eqb_eq ?%negb_true_iff]. done. }
        eexists. split; [done|]. split.
        -- split; simpl.
           ++ by apply Rect_update.
           ++ intros q [[Ha Hq]|Hq]%elem_of_pushNeighbours.
              ** split; [done|]. eapply reach_next; [done..| |done]. by destruct p.
              ** apply Hfr, Hmem. tauto.
           ++ intros q [->|Hq]%Hmem'; [done | by apply Hvis].
           ++ rewrite Hmem'. destruct Hs as [?|[->|?]%Hmem]; [tauto..|].
              right. apply elem_of_pushNeighbours. tauto.
           ++ intros p' q [->|Hp']%Hmem' Ho Ha Hq; rewrite Hmem', elem_of_pushNeighbours.
              ** right. left. split; [|done]. by destruct p.
              ** destruct (Hcl p' q Hp' Ho Ha Hq) as [?|[->|?]%Hmem]; tauto.
           ++ done.
        -- unfold fillMeasure. simpl.
           pose proof (length_pushNeighbours rows cols p.1 p.2 (l1 ++ l2)) as Hlen.
           rewrite Hsplit. rewrite !length_app in *. simpl. lia.
      * eexists. split; [done|]. split.
        -- split; simpl.
           ++ by apply Rect_update.
           ++ intros q Hq. apply Hfr, Hmem. tauto.
           ++ intros q [->|Hq]%Hmem'; [done | by apply Hvis].
           ++ rewrite Hmem'. destruct Hs as [?|[->|?]%Hmem]; tauto.
           ++ intros p' q [->|Hp']%Hmem' Ho Ha Hq.
              ** destruct Ho as (c' & Hc' & _ & _ & Hadj & Hmine).
                 rewrite Hc in Hc'. inversion Hc'; subst.
                 rewrite Hadj, Hmine in Hopen. done.
              ** rewrite Hmem'.
                 destruct (Hcl p' q Hp' Ho Ha Hq) as [?|[->|?]%Hmem]; tauto.
           ++ done.
        -- unfold fillMeasure. simpl. rewrite Hsplit, !length_app. simpl. lia.
Qed.
End fill.

Section runs.
Context (b0 : Board) (rows cols : Z) (s : Coord).
Hypothesis HRect : Rect b0 rows cols.
Hypothesis Hstart : inBounds rows cols s.

Lemma fillStep_inv st st' :
  fillInv b0 rows cols s st -> fillStep rows cols st st' ->
  fillInv b0 rows cols s st'.
Proof.
  intros Hinv Hstep. destruct Hstep as [st l1 p l2 st' Hsplit Hvisit].
  destruct (visit_step b0 rows cols s HRect Hstart st l1 p l2 Hinv Hsplit)
    as (st'' & Hvisit' & Hinv' & _).
  congruence.
Qed.

Lemma fillRun_inv st :
  rtc (fillStep rows cols) (mkFill b0 [s] ∅) st -> fillInv b0 rows cols s st.
Proof.
  intros Hrun. eapply (rtc_ind_r (fun st => fillInv b0 rows cols s st)); [| |done].
  - by apply fillInv_initial.
  - intros st1 st2 _ Hstep Hinv. by eapply fillStep_inv.
Qed.

(** With an empty frontier, the visited coordinates are the reachable
    ones. *)
Lemma fillInv_final_visited st :
  fillInv b0 rows cols s st -> frontier st = [] ->
  forall p, p ∈ visited st <-> reach b0 rows cols s p.
Proof.
  intros [HR Hfr Hvis Hs Hcl Hcells] Hempty p. split; [apply Hvis|].
  induction 1 as [|p q Hp IH Ho Ha Hq].
  - destruct Hs as [?|Hin]; [done|]. rewrite Hempty in Hin.
    by apply elem_of_nil in Hin.
  - destruct (Hcl p q IH Ho Ha Hq) as [?|Hin]; [done|]. rewrite Hempty in Hin.
    by apply elem_of_nil in Hin.
Qed.

Lemma fillInv_final_cells st x y c :
  fillInv b0 rows cols s st -> frontier st = [] ->
  cellAt b0 x y = Some c ->
  (reach b0 rows cols s (x, y) -> cellAt (fboard st) x y = Some (touch c)) /\
  (~ reach b0 rows cols s (x, y) -> cellAt (fboard st) x y = Some c).
Proof.
  intros Hinv Hempty Hc.
  pose proof (fillInv_final_visited st Hinv Hempty (x, y)) as Hv.
  rewrite (inv_cells _ _ _ _ _ Hinv), Hc. simpl. unfold marked.
  split; intros Hr.
  - by rewrite decide_True by tauto.
  - by rewrite decide_False by tauto.
Qed.

(** Two runs that both emptied the frontier end with the same board. *)
Lemma fillInv_final_unique st1 st2 :
  fillInv b0 rows cols s st1 -> frontier st1 = [] ->
  fillInv b0 rows cols s st2 -> frontier st2 = [] ->
  fboard st1 = fboard st2.
Proof.
  intros Hinv1 He1 Hinv2 He2.
  apply (board_ext _ _ rows cols); [apply Hinv1 | apply Hinv2 |].
  intros x y. rewrite (inv_cells _ _ _ _ _ Hinv1), (inv_cells _ _ _ _ _ Hinv2).
  destruct (cellAt b0 x y) as [c|]; [simpl|done]. unfold marked.
  pose proof (fillInv_final_visited st1 Hinv1 He1 (x, y)) as H1.
  pose proof (fillInv_final_visited st2 Hinv2 He2 (x, y)) as H2.
  destruct (decide ((x, y) ∈ visited st1)), (decide ((x, y) ∈ visited st2));
    tauto.
Qed.

(** The loop of the source, given fuel for what is left to do, empties the
    frontier, by a run that takes the head of the frontier every time. *)
Lemma revealLoop_enough fuel st :
  fillInv b0 rows cols s st ->
  (fillMeasure rows cols st <= fuel)%nat ->
  exists st', revealLoop fuel rows cols st = Done (fboard st') /\
    rtc (fillStep rows cols) st st' /\ frontier st' = [].
Proof.
  revert st. induction fuel as [|fuel IH]; intros st Hinv Hfuel.
  - exists st. destruct st as [b fr vis]. unfold fillMeasure in Hfuel.
    simpl in *. destruct fr as [|p fr]; [|simpl in Hfuel; lia]. done.
  - destruct st as [b fr vis]. simpl. destruct fr as [|p rest].
    + by exists (mkFill b [] vis).
    + destruct (visit_step b0 rows cols s HRect Hstart (mkFill b (p :: rest) vis) [] p rest Hinv eq_refl)
        as (st' & Hvisit & Hinv' & Hlt).
      simpl in Hvisit. rewrite Hvisit. simpl.
      destruct (IH st' Hinv') as (st'' & Hloop & Hrun & Hempty); [lia|].
      exists st''. split; [done|]. split; [|done].
      eapply rtc_l; [|done]. by apply (fill_take _ _ _ [] p rest).
Qed.
End runs.

Lemma revealLoop_fuel_mono fuel fuel' rows cols st b :
  revealLoop fuel rows cols st = Done b -> (fuel <= fuel')%nat ->
  revealLoop fuel' rows cols st = Done b.
Proof.
  revert fuel' st. induction fuel as [|fuel IH]; intros fuel' st Hrun Hle.
  - destruct fuel'; simpl in *; by destruct (frontier st).
  - destruct fuel' as [|fuel']; [lia|]. simpl in *.
    destruct (frontier st) as [|p rest]; [done|].
    destruct (visit rows cols p (fboard st) rest (visited st)) as [st'| |]; [|done..].
    simpl in *. apply IH; [done | lia].
Qed.

(** [revealCell] on a rectangular board, from a coordinate of the board:
    it returns, and what it returns is the end of a run of the fill. *)
Lemma revealCell_run b rows cols x y :
  Rect b rows cols -> inBounds rows cols (x, y) ->
  exists st, revealCell b x y = Done (fboard st) /\
    fillInv b rows cols (x, y) st /\ frontier st = [] /\
    rtc (fillStep rows cols) (mkFill b [(x, y)] ∅) st.
Proof.
  intros HR Hin. unfold revealCell.
  assert (rowsOf b = rows) as -> by apply HR.
  rewrite (colsOf_Rect b rows cols) by (done || (destruct Hin; simpl in *; lia)).
  simpl.
  destruct (revealLoop_enough b rows cols (x, y) HR Hin (revealFuel rows cols)
              (mkFill b [(x, y)] ∅)) as (st & Hloop & Hrun & Hempty).
  - by apply fillInv_initial.
  - by apply fillMeasure_initial.
  - exists st. split_and!; [done| |done|done].
    by apply fillRun_inv.
Qed.

Lemma reach_region b rows cols s q :
  Rect b rows cols ->
  reach b rows cols s q <->
  q = s \/ zeroRegion b s q \/
  exists r, zeroRegion b s r /\ adj8 r q /\ inBounds rows cols q.
Proof.
  intros HR. split.
  - induction 1 as [|p q Hp IH Ho Ha Hq]; [by left|].
    right. right. exists p. split; [|done].
    destruct IH as [->|[Hreg|(r & Hr & Har & _)]].
    + by constructor.
    + done.
    + by eapply region_next.
  - assert (forall p, zeroRegion b s p -> reach b rows cols s p /\ opens b p) as Hreg.
    { induction 1 as [|p p' Hp [IH Hop] Ha Ho]; [split; [constructor|done]|].
      split; [|done]. eapply reach_next; [done..|].
      destruct Ho as (c & Hc & _). destruct p' as [px py].
      apply (cellAt_inBounds b rows cols); [done | by exists c]. }
    intros [->|[[Hr _]%Hreg|(r & [Hr Ho]%Hreg & Ha & Hq)]]; [constructor|done|].
    by eapply reach_next.
Qed.

(** ** What [revealCell] reveals *)

Lemma touch_fields c :
  isMine (touch c) = isMine c /\ isFlagged (touch c) = isFlagged c /\
  adjacent (touch c) = adjacent c /\ x (touch c) = x c /\ y (touch c) = y c.
Proof. unfold touch. by destruct (isRevealed c || isFlagged c). Qed.

Lemma touch_revealed c :
  isRevealed (touch c) = true /\ isRevealed c = false <->
  isRevealed c = false /\ isFlagged c = false.
Proof. unfold touch. destruct c as [cx cy m [] [] a]; simpl; intuition congruence. Qed.

(** C1 (as amended). On a rectangular board and from a coordinate of the
    board, [revealCell] returns; the cells it turns from hidden to revealed
    are exactly the hidden, unflagged cells among the start, the region of
    hidden, unflagged, mine-free cells with no mine around that is connected
    to the start, and the cells bordering that region; every run of the
    fill, whatever the order in which it takes coordinates from the
    frontier, ends with the board [revealCell] returns; and a cell that is
    flagged or already revealed is left as it is. *)
Theorem revealCell_reveals (b : Board) (rows cols x y : Z) :
  Rect b rows cols -> inBounds rows cols (x, y) ->
  exists b', revealCell b x y = Done b' /\
    (forall p, newlyRevealed b b' p <-> fillTarget b rows cols (x, y) p) /\
    (forall b'', fillRun b rows cols (x, y) b'' -> b'' = b') /\
    (forall px py c, cellAt b px py = Some c ->
       isRevealed c = true \/ isFlagged c = true -> cellAt b' px py = Some c).
Proof.
  intros HR Hin.
  destruct (revealCell_run b rows cols x y HR Hin) as (st & Hrun & Hinv & Hempty & _).
  exists (fboard st). split; [done|]. split_and!.
  - intros [px py]. unfold newlyRevealed, fillTarget, coverable. simpl.
    rewrite <- (reach_region b rows cols (x, y) (px, py) HR).
    rewrite <- (fillInv_final_visited b rows cols (x, y) st Hinv Hempty).
    rewrite (inv_cells _ _ _ _ _ Hinv). unfold marked. split.
    + intros (c & c' & Hc & Hc' & Hr & Hr'). rewrite Hc in Hc'. simpl in Hc'.
      destruct (decide ((px, py) ∈ visited st)); [|congruence].
      split; [done|]. exists c. split; [done|].
      apply touch_revealed. split; congruence.
    + intros (Hv & c & Hc & Hr & Hf). exists c, (touch c). rewrite Hc. simpl.
      rewrite decide_True by done. split_and!; try done.
      by apply touch_revealed.
  - intros b'' (st' & Hrun' & Hempty' & <-).
    eapply fillInv_final_unique; [by apply fillRun_inv | done | done | done].
  - intros px py c Hc Hrf. rewrite (inv_cells _ _ _ _ _ Hinv), Hc. simpl.
    assert (isRevealed c || isFlagged c = true) as Hor
      by (apply orb_true_iff; tauto).
    unfold marked, touch. rewrite Hor. by destruct (decide _).
Qed.

(** The relation between the cells of two boards of the same size. *)
Lemma boards_related (R : Cell -> Cell -> Prop) b b' rows cols :
  Rect b rows cols -> Rect b' rows cols ->
  (forall x y c c', cellAt b x y = Some c -> cellAt b' x y = Some c' -> R c c') ->
  Forall2 (Forall2 R) b b'.
Proof.
  intros HR HR' Hcells. apply Forall2_same_length_lookup. split.
  - destruct HR as [Hr _], HR' as [Hr' _]. unfold rowsOf in *. lia.
  - intros i row row' Hrow Hrow'. rewrite <- index_of_nat in Hrow, Hrow'.
    apply Forall2_same_length_lookup. split.
    + pose proof (Rect_index _ _ _ _ _ HR Hrow).
      pose proof (Rect_index _ _ _ _ _ HR' Hrow'). lia.
    + intros j c c' Hc Hc'. rewrite <- index_of_nat in Hc, Hc'.
      apply (Hcells (Z.of_nat j) (Z.of_nat i)); apply cellAt_Some; eauto.
Qed.

Lemma count_related (P : Cell -> Prop) `{!forall c, Decision (P c)} (b b' : Board) :
  Forall2 (Forall2 (fun c c' => P c <-> P c')) b b' ->
  length (filter P (mjoin b)) = length (filter P (mjoin b')).
Proof.
  induction 1 as [|row row' b b' Hrow _ IH]; [done|].
  simpl. rewrite !filter_app, !length_app, IH. f_equal.
  clear -Hrow. induction Hrow as [|c c' row row' Hc _ IH]; [done|].
  rewrite !filter_cons. repeat case_decide; simpl; try (by rewrite IH); tauto.
Qed.

(** C8. On a rectangular board and from a coordinate of the board,
    [revealCell] returns a board of the same size on which every cell has
    the [isMine], [isFlagged] and [adjacent] (and the coordinates) it had;
    so [countFlags] is the same before and after. *)
Theorem revealCell_frame (b : Board) (rows cols sx sy : Z) :
  Rect b rows cols -> inBounds rows cols (sx, sy) ->
  exists b', revealCell b sx sy = Done b' /\ Rect b' rows cols /\
    (forall px py c, cellAt b px py = Some c ->
       exists c', cellAt b' px py = Some c' /\
         isMine c' = isMine c /\ isFlagged c' = isFlagged c /\
         adjacent c' = adjacent c /\ x c' = x c /\ y c' = y c) /\
    countFlags b' = countFlags b.
Proof.
  intros HR Hin.
  destruct (revealCell_run b rows cols sx sy HR Hin) as (st & Hrun & Hinv & Hempty & _).
  exists (fboard st). split; [done|].
  assert (forall px py c, cellAt b px py = Some c ->
    exists c', cellAt (fboard st) px py = Some c' /\
      isMine c' = isMine c /\ isFlagged c' = isFlagged c /\
      adjacent c' = adjacent c /\ x c' = x c /\ y c' = y c) as Hframe.
  { intros px py c Hc. rewrite (inv_cells _ _ _ _ _ Hinv), Hc. simpl.
    eexists. split; [done|]. unfold marked.
    destruct (decide _); [apply touch_fields | done]. }
  split_and!; [apply Hinv | done |].
  unfold countFlags. f_equal. symmetry.
  apply (count_related (fun c => isFlagged c = true)).
  eapply boards_related; [done | apply Hinv |].
  intros px py c c' Hc Hc'. destruct (Hframe px py c Hc) as (c'' & Hc'' & _ & Hf & _).
  rewrite Hc' in Hc''. inversion Hc''; subst. by rewrite Hf.
Qed.

(** ** Loops *)

Lemma for_each_app {A S} (l1 l2 : list A) (body : A -> S -> result S) s :
  for_each (l1 ++ l2) body s = s' ← for_each l1 body s; for_each l2 body s'.
Proof.
  revert s. induction l1 as [|a l1 IH]; intros s; [done|].
  simpl. destruct (body a s) as [s'| |]; simpl; [apply IH|done..].
Qed.

Lemma for_each_bind {A B S} (l : list A) (f : A -> list B) (body : B -> S -> result S) s :
  for_each (l ≫= f) body s = for_each l (fun a s => for_each (f a) body s) s.
Proof.
  revert s. induction l as [|a l IH]; intros s; [done|].
  rewrite bind_cons, for_each_app. simpl.
  destruct (for_each (f a) body s) as [s'| |]; simpl; [apply IH|done..].
Qed.

(** A loop whose body always returns and keeps an invariant of the values
    passed so far returns, with the invariant of all values. *)
Lemma for_each_inv {A S} (I : list A -> S -> Prop) (l : list A)
    (body : A -> S -> result S) (s : S) :
  I [] s ->
  (forall done a s, I done s -> a ∈ l ->
     exists s', body a s = Done s' /\ I (done ++ [a]) s') ->
  exists s', for_each l body s = Done s' /\ I l s'.
Proof.
  intros Hinit Hbody.
  assert (forall todo done s, done ++ todo = l -> I done s ->
    exists s', for_each todo body s = Done s' /\ I l s') as Hgen.
  { induction todo as [|a todo IH]; intros done s0 Hl Hdone.
    - rewrite app_nil_r in Hl. subst. by exists s0.
    - destruct (Hbody done a s0 Hdone) as (s1 & Hs1 & Hinv1).
      { rewrite <- Hl. apply elem_of_app. right. by left. }
      simpl. rewrite Hs1. simpl. apply (IH (done ++ [a])); [|done].
      by rewrite <- app_assoc. }
  by apply (Hgen l []).
Qed.

Lemma for_each_pure {A S} (l : list A) (body : A -> S -> result S)
    (g : S -> A -> S) (s : S) :
  (forall a s, body a s = Done (g s a)) ->
  for_each l body s = Done (foldl g s l).
Proof.
  intros Hbody. revert s. induction l as [|a l IH]; intros s; [done|].
  simpl. rewrite Hbody. simpl. apply IH.
Qed.

(** ** Adjacency counts *)

Lemma filter_count_cons {A} (f : A -> bool) (a : A) (l : list A) :
  Z.of_nat (length (filter (fun q => f q = true) (a :: l))) =
  b2z (f a) + Z.of_nat (length (filter (fun q => f q = true) l)).
Proof.
  rewrite filter_cons. destruct (f a) eqn:Hf.
  - rewrite decide_True by done. simpl length. unfold b2z. lia.
  - rewrite decide_False by done. unfold b2z. lia.
Qed.

Lemma mineNeighbours_sum b x y :
  mineNeighbours b (x, y) =
  b2z (mineAt b (x - 1, y - 1)) + b2z (mineAt b (x, y - 1)) + b2z (mineAt b (x + 1, y - 1))
  + b2z (mineAt b (x - 1, y)) + b2z (mineAt b (x + 1, y))
  + b2z (mineAt b (x - 1, y + 1)) + b2z (mineAt b (x, y + 1)) + b2z (mineAt b (x + 1, y + 1)).
Proof.
  unfold mineNeighbours, neighbours8. cbn [fst snd].
  rewrite !(filter_count_cons (mineAt b)), filter_nil. simpl length. lia.
Qed.

Lemma mineNeighbours_range b p : 0 <= mineNeighbours b p <= 8.
Proof.
  unfold mineNeighbours.
  pose proof (length_filter (fun q => mineAt b q = true) (neighbours8 p)) as H.
  simpl in H. lia.
Qed.

Section counting.
Context (b : Board) (rows cols : Z).
Hypothesis HRect : Rect b rows cols.

Lemma countAround_step x y dy dx count :
  (if (dx =? 0) && (dy =? 0) then Done count
   else
     let ny := y + dy in
     let nx := x + dx in
     if (0 <=? ny) && (ny <? rows) && (0 <=? nx) && (nx <? cols) then
       c ← readCell b nx ny;
       Done (if isMine c then count + 1 else count)
     else Done count)
  = Done (count + if (dx =? 0) && (dy =? 0) then 0 else b2z (mineAt b (x + dx, y + dy))).
Proof.
  destruct ((dx =? 0) && (dy =? 0)); [f_equal; lia|]. cbn zeta.
  unfold mineAt, readCell. simpl.
  destruct ((0 <=? y + dy) && (y + dy <? rows) && (0 <=? x + dx) && (x + dx <? cols)) eqn:Hb.
  - assert (inBounds rows cols (x + dx, y + dy)) as Hin.
    { unfold inBounds. simpl. lia. }
    apply (cellAt_inBounds b rows cols) in Hin as [c Hc]; [|done].
    rewrite Hc. simpl. destruct (isMine c); unfold b2z; f_equal; lia.
  - rewrite (cellAt_None_outside b rows cols); [unfold b2z; f_equal; lia|done|].
    unfold inBounds. simpl. lia.
Qed.

Lemma countAround_spec x y :
  countAround b rows cols x y = Done (mineNeighbours b (x, y)).
Proof.
  unfold countAround.
  rewrite (for_each_pure _ _ (fun count dy => foldl (fun count dx =>
    count + if (dx =? 0) && (dy =? 0) then 0 else b2z (mineAt b (x + dx, y + dy)))
    count deltas)).
  - rewrite mineNeighbours_sum. unfold deltas. simpl. rewrite !Z.add_0_r.
    replace (x + -1) with (x - 1) by lia. replace (y + -1) with (y - 1) by lia.
    f_equal; lia.
  - intros dy count. apply for_each_pure. intros dx count'.
    apply countAround_step.
Qed.
End counting.

Lemma for_each_ext {A S} (l : list A) (body1 body2 : A -> S -> result S) s :
  (forall a s, body1 a s = body2 a s) ->
  for_each l body1 s = for_each l body2 s.
Proof.
  intros Hext. revert s. induction l as [|a l IH]; intros s; [done|].
  simpl. rewrite Hext. destruct (body2 a s); simpl; [apply IH|done..].
Qed.

Lemma mineNeighbours_ext b b' p :
  (forall q, mineAt b' q = mineAt b q) -> mineNeighbours b' p = mineNeighbours b p.
Proof. intros Hext. destruct p as [px py]. by rewrite !mineNeighbours_sum, !Hext. Qed.

Lemma adjust_fields b p c :
  isMine (adjust b p c) = isMine c /\ isRevealed (adjust b p c) = isRevealed c /\
  isFlagged (adjust b p c) = isFlagged c /\ x (adjust b p c) = x c /\ y (adjust b p c) = y c.
Proof. unfold adjust. destruct (isMine c) eqn:Hm; simpl; auto. Qed.

(** The two nested loops of the adjacency pass, as one loop over the
    coordinates in the order the loops take them. *)
Lemma computeAdjacent_flat b rows cols :
  computeAdjacent b rows cols =
  for_each (allCoords rows cols) (fun p board =>
    c ← readCell board p.1 p.2;
    if isMine c then Done board
    else
      count ← countAround board rows cols p.1 p.2;
      Done (update board p.1 p.2 (setAdjacent count))) b.
Proof.
  unfold computeAdjacent, allCoords. rewrite for_each_bind.
  apply for_each_ext. intros y bd. rewrite for_each_bind.
  apply for_each_ext. intros x bd'. simpl.
  by destruct (readCell bd' x y ≫= _).
Qed.

(** The adjacency pass returns on a rectangular board, and gives every
    cell that is not a mine the count of the mines around it. *)
Lemma computeAdjacent_spec b rows cols :
  Rect b rows cols ->
  exists b', computeAdjacent b rows cols = Done b' /\ Rect b' rows cols /\
    forall x y, cellAt b' x y = adjust b (x, y) <$> cellAt b x y.
Proof.
  intros HR. rewrite computeAdjacent_flat.
  destruct (for_each_inv
    (fun done bd => Rect bd rows cols /\
       forall x y, cellAt bd x y = adjusted b done (x, y) <$> cellAt b x y)
    (allCoords rows cols)
    (fun p board =>
      c ← readCell board p.1 p.2;
      if isMine c then Done board
      else
        count ← countAround board rows cols p.1 p.2;
        Done (update board p.1 p.2 (setAdjacent count))) b)
    as (b' & Hrun & HR' & Hcells).
  - split; [done|]. intros x y. destruct (cellAt b x y); [simpl|done].
    unfold adjusted. rewrite decide_False; [done|]. apply not_elem_of_nil.
  - intros done [px py] bd [HRbd Hbd] Hin%elem_of_allCoords. simpl.
    destruct (proj2 (cellAt_inBounds b rows cols px py HR) Hin) as [c0 Hc0].
    assert (forall q, mineAt bd q = mineAt b q) as Hmines.
    { intros [qx qy]. unfold mineAt. simpl. rewrite Hbd.
      destruct (cellAt b qx qy) as [c|]; [simpl|done]. unfold adjusted.
      destruct (decide _); [apply adjust_fields | done]. }
    unfold readCell. rewrite Hbd, Hc0. simpl.
    assert (isMine (adjusted b done (px, py) c0) = isMine c0) as ->.
    { unfold adjusted. destruct (decide _); [apply adjust_fields | done]. }
    destruct (isMine c0) eqn:Hm.
    + eexists. split; [done|]. split; [done|].
      intros x y. rewrite Hbd. destruct (cellAt b x y) as [c|] eqn:Hc; [simpl|done].
      f_equal. unfold adjusted.
      destruct (decide ((x, y) ∈ done)) as [Hd|Hd].
      * rewrite decide_True; [done|]. apply elem_of_app. by left.
      * destruct (decide ((x, y) = (px, py))) as [Heq|Hne].
        -- inversion Heq; subst. rewrite decide_True by (apply elem_of_app; right; by left).
           unfold adjust. rewrite Hc0 in Hc. inversion Hc; subst. by rewrite Hm.
        -- rewrite decide_False; [done|].
           intros [?|?%list_elem_of_singleton]%elem_of_app; done.
    + rewrite (countAround_spec bd rows cols HRbd). simpl.
      eexists. split; [done|]. split; [by apply Rect_update|].
      intros x y. rewrite cellAt_update.
      destruct (decide (px = x /\ py = y)) as [[-> ->]|Hne].
      * rewrite Hbd, Hc0. simpl. f_equal. unfold adjusted.
        assert ((x, y) ∈ done ++ [(x, y)]) as Hlast
          by (apply elem_of_app; right; by left).
        rewrite (decide_True _ _ Hlast).
        unfold adjust. rewrite Hm. rewrite (mineNeighbours_ext b bd) by done.
        destruct (decide _); done.
      * rewrite Hbd. destruct (cellAt b x y) as [c|]; [simpl|done].
        f_equal. unfold adjusted.
        destruct (decide ((x, y) ∈ done)) as [Hd|Hd].
        -- rewrite decide_True; [done|]. apply elem_of_app. by left.
        -- rewrite decide_False; [done|].
           intros [?|Heq%list_elem_of_singleton]%elem_of_app; [done|].
           inversion Heq; subst. tauto.
  - exists b'. split; [done|]. split; [done|].
    intros x y. rewrite Hcells.
    destruct (cellAt b x y) as [c|] eqn:Hc; [simpl|done].
    unfold adjusted. rewrite decide_True; [done|].
    apply elem_of_allCoords, (cellAt_inBounds b rows cols); [done | by exists c].
Qed.

(** ** Mine placement *)

Lemma join_cons {A} (l : list A) (ls : list (list A)) :
  mjoin (l :: ls) = l ++ mjoin ls.
Proof. reflexivity. Qed.

Lemma count_alter_row (P : Cell -> Prop) `{!forall c, Decision (P c)}
    (f : Cell -> Cell) (row : list Cell) (j : nat) (c : Cell) :
  row !! j = Some c ->
  (length (filter P (alter f j row)) + (if decide (P c) then 1 else 0)
   = length (filter P row) + (if decide (P (f c)) then 1 else 0))%nat.
Proof.
  revert j. induction row as [|c' row IH]; intros j Hj; [done|].
  destruct j as [|j].
  - injection Hj as ->. change (alter f 0%nat (c :: row)) with (f c :: row).
    rewrite !filter_cons.
    destruct (decide (P c)), (decide (P (f c))); cbn [length]; lia.
  - change (alter f (S j) (c' :: row)) with (c' :: alter f j row).
    specialize (IH j Hj). rewrite !filter_cons.
    destruct (decide (P c')); cbn [length]; lia.
Qed.

Lemma count_alter_board (P : Cell -> Prop) `{!forall c, Decision (P c)}
    (f : Cell -> Cell) (b : Board) (i j : nat) (row : list Cell) (c : Cell) :
  b !! i = Some row -> row !! j = Some c ->
  (length (filter P (mjoin (alter (alter f j) i b))) + (if decide (P c) then 1 else 0)
   = length (filter P (mjoin b)) + (if decide (P (f c)) then 1 else 0))%nat.
Proof.
  revert i. induction b as [|row' b IH]; intros i Hi Hj; [done|].
  destruct i as [|i].
  - injection Hi as ->.
    change (alter (alter f j) 0%nat (row :: b)) with (alter f j row :: b).
    rewrite !join_cons, !filter_app, !length_app.
    pose proof (count_alter_row P f row j c Hj). lia.
  - change (alter (alter f j) (S i) (row' :: b)) with (row' :: alter (alter f j) i b).
    specialize (IH i Hi Hj).
    rewrite !join_cons, !filter_app, !length_app. lia.
Qed.

Lemma countMines_update b x y c :
  cellAt b x y = Some c -> isMine c = false ->
  countMines (update b x y setMine) = countMines b + 1.
Proof.
  intros (row & [Hy Hrow]%index_Some & [Hx Hc]%index_Some)%cellAt_Some Hm.
  unfold countMines, update. rewrite decide_True by done.
  pose proof (count_alter_board (fun c => isMine c = true) setMine b
                (Z.to_nat y) (Z.to_nat x) row c Hrow Hc) as H.
  rewrite decide_False in H by congruence. rewrite decide_True in H by done.
  lia.
Qed.

Lemma countMines_mineFree b : mineFree b -> countMines b = 0.
Proof.
  intros Hfree. unfold countMines.
  assert (Forall (fun c => ~ isMine c = true) (mjoin b)) as Hall.
  { apply Forall_forall. intros c (x & y & Hc)%elem_of_cellAt.
    rewrite (Hfree x y c Hc). done. }
  induction Hall as [|c l Hc _ IH]; [done|].
  rewrite filter_cons, decide_False by done. apply IH.
Qed.

(** What the placement loop leaves when it ends: every cell is the cell it
    was or that cell mined, the excluded cell is as it was, and the number
    of mines has grown by the number that was still to place. *)
Lemma placeLoop_spec rnd : forall b mines initial placed b' rows cols,
  placeLoop b mines initial placed rnd = Done b' ->
  (Rect b rows cols -> Rect b' rows cols) /\
  countMines b' = countMines b + Z.max 0 (mines - placed) /\
  cellAt b' initial.1 initial.2 = cellAt b initial.1 initial.2 /\
  (forall x y, cellAt b' x y = cellAt b x y \/
     exists c, cellAt b x y = Some c /\ cellAt b' x y = Some (setMine c)).
Proof.
  induction rnd as [|[dx dy] rnd IH]; intros b mines initial placed b' rows cols;
    cbn [placeLoop]; destruct (decide (placed < mines)) as [Hlt|Hge].
  - intros [=].
  - intros [= <-]. split_and!; [done | lia | done | by left].
  - destruct ((dx =? initial.1) && (dy =? initial.2)) eqn:Hinit.
    + intros Hrun. apply (IH _ _ _ _ _ rows cols) in Hrun. done.
    + unfold readCell. destruct (cellAt b dx dy) as [c|] eqn:Hc; [simpl|done].
      destruct (isMine c) eqn:Hm.
      * intros Hrun. apply (IH _ _ _ _ _ rows cols) in Hrun. done.
      * intros Hrun. apply (IH _ _ _ _ _ rows cols) in Hrun.
        destruct Hrun as (HR & Hcount & Hi & Hcells).
        rewrite (countMines_update b dx dy c Hc Hm) in Hcount.
        split_and!.
        -- intros HRb. by apply HR, Rect_update.
        -- lia.
        -- rewrite Hi. apply cellAt_update_ne. intros Heq. destruct initial.
           inversion Heq; subst. simpl in Hinit. lia.
        -- intros x y. specialize (Hcells x y). rewrite cellAt_update in Hcells.
           destruct Hcells as [Hsame|(c' & Hc' & Hset)].
           ++ rewrite Hsame. destruct (decide (dx = x /\ dy = y)) as [[-> ->]|_]; [|by left].
              right. exists c. rewrite Hc. done.
           ++ destruct (decide (dx = x /\ dy = y)) as [[-> ->]|_].
              ** right. exists c. rewrite Hc in Hc'. simpl in Hc'.
                 inversion Hc'; subst. done.
              ** right. by exists c'.
  - intros [= <-]. split_and!; [done | lia | done | by left].
Qed.

(** [placeMines], read as its two phases. *)
Lemma placeMines_phases b rows cols mines initial rnd b' :
  Rect b rows cols ->
  placeMines b mines initial rnd = Done b' ->
  exists b1, placeLoop b mines initial 0 rnd = Done b1 /\ Rect b1 rows cols /\
    Rect b' rows cols /\
    forall x y, cellAt b' x y = adjust b1 (x, y) <$> cellAt b1 x y.
Proof.
  intros HR. unfold placeMines.
  destruct (colsOf b) as [cols'| |] eqn:Hcols; [simpl|done..].
  assert (0 < rows) as Hrows.
  { unfold colsOf in Hcols. destruct (index b 0) as [row|] eqn:Hrow; [|done].
    assert (is_Some (index b 0)) as Hr%index_range by eauto.
    destruct HR as [<- _]. unfold rowsOf. lia. }
  rewrite (colsOf_Rect b rows cols HR Hrows) in Hcols. inversion Hcols; subst.
  destruct (placeLoop b mines initial 0 rnd) as [b1| |] eqn:Hloop; [simpl|done..].
  destruct (placeLoop_spec _ _ _ _ _ _ (rowsOf b) cols' Hloop) as (HR1 & _).
  assert (rowsOf b = rowsOf b) as _ by done.
  assert (Rect b (rowsOf b) cols') as HRb by (destruct HR; by split).
  specialize (HR1 HRb).
  destruct (computeAdjacent_spec b1 (rowsOf b) cols' HR1) as (b2 & Hadj & HR2 & Hcells).
  rewrite Hadj. intros [= <-]. exists b1.
  destruct HR as [Hr _]. rewrite Hr in *. done.
Qed.

Lemma adjust_mineAt b b1 b' :
  (forall x y, cellAt b' x y = adjust b (x, y) <$> cellAt b1 x y) ->
  forall q, mineAt b' q = mineAt b1 q.
Proof.
  intros Hcells [qx qy]. unfold mineAt. simpl. rewrite Hcells.
  destruct (cellAt b1 qx qy); [simpl|done]. apply adjust_fields.
Qed.

(** The board [placeMines] returns has its counts right. *)
Lemma placeMines_adjacencyOK b rows cols mines initial rnd b' :
  Rect b rows cols -> placeMines b mines initial rnd = Done b' -> adjacencyOK b'.
Proof.
  intros HR Hrun x y c Hc Hm.
  destruct (placeMines_phases b rows cols mines initial rnd b' HR Hrun)
    as (b1 & _ & _ & _ & Hcells).
  rewrite (mineNeighbours_ext b1 b') by (by apply (adjust_mineAt b1)).
  rewrite Hcells in Hc. destruct (cellAt b1 x y) as [c1|]; [|done].
  simpl in Hc. inversion Hc; subst. unfold adjust in *.
  destruct (isMine c1) eqn:Hm1; [congruence | done].
Qed.

(** C2. On every board that [placeMines] returns for a rectangular board,
    [adjacent] of every cell that is not a mine is the number of its
    (at most eight) neighbours on the board that are mines. *)
Theorem placeMines_adjacent (b : Board) (rows cols mines : Z) (initial : Coord)
    (rnd : list Coord) (b' : Board) :
  Rect b rows cols ->
  placeMines b mines initial rnd = Done b' ->
  forall x y c, cellAt b' x y = Some c -> isMine c = false ->
    adjacent c = mineNeighbours b' (x, y) /\ 0 <= adjacent c <= 8.
Proof.
  intros HR Hrun x y c Hc Hm.
  pose proof (placeMines_adjacencyOK b rows cols mines initial rnd b' HR Hrun) as Hadj.
  rewrite (Hadj x y c Hc Hm). split; [done | apply mineNeighbours_range].
Qed.

(** C4. On a rectangular board without mines, when [placeMines] returns
    for a number of mines that is not negative, the board has exactly that
    number of mines and none at the excluded coordinate. *)
Theorem placeMines_count (b : Board) (rows cols mines : Z) (initial : Coord)
    (rnd : list Coord) (b' : Board) :
  Rect b rows cols -> mineFree b -> 0 <= mines ->
  placeMines b mines initial rnd = Done b' ->
  countMines b' = mines /\ mineAt b' initial = false.
Proof.
  intros HR Hfree Hmines Hrun.
  destruct (placeMines_phases b rows cols mines initial rnd b' HR Hrun)
    as (b1 & Hloop & HR1 & HR' & Hcells).
  destruct (placeLoop_spec _ _ _ _ _ _ rows cols Hloop) as (_ & Hcount & Hinit & _).
  rewrite (countMines_mineFree b Hfree) in Hcount.
  split.
  - transitivity (countMines b1); [|lia]. unfold countMines. f_equal.
    apply (count_related (fun c => isMine c = true)).
    eapply boards_related; [done..|].
    intros x y c' c1 Hc' Hc1. rewrite Hcells, Hc1 in Hc'. simpl in Hc'.
    inversion Hc'; subst. by rewrite (proj1 (adjust_fields b1 (x, y) c1)).
  - rewrite (adjust_mineAt b1 b1 b' Hcells). unfold mineAt. rewrite Hinit.
    destruct (cellAt b initial.1 initial.2) as [c|] eqn:Hc; [|done].
    by eapply Hfree.
Qed.

(** ** The empty board *)

Lemma cellAt_createEmptyBoard rows cols x y :
  cellAt (createEmptyBoard rows cols) x y =
  if decide (inBounds rows cols (x, y)) then Some (mkCell x y false false false 0)
  else None.
Proof.
  unfold cellAt, index, createEmptyBoard, inBounds. simpl.
  destruct (decide (0 <= y)) as [Hy|Hy]; [|rewrite decide_False by lia; done].
  rewrite list_lookup_fmap.
  destruct (decide (y < rows)) as [Hy'|Hy'].
  - rewrite lookup_seqZ_lt by lia. simpl.
    destruct (decide (0 <= x)) as [Hx|Hx]; [|rewrite decide_False by lia; done].
    rewrite list_lookup_fmap.
    destruct (decide (x < cols)) as [Hx'|Hx'].
    + rewrite lookup_seqZ_lt by lia. simpl. rewrite decide_True by lia.
      do 2 f_equal; lia.
    + rewrite lookup_seqZ_ge by lia. simpl. rewrite decide_False by lia. done.
  - rewrite lookup_seqZ_ge by lia. simpl. rewrite decide_False by lia. done.
Qed.

Lemma Rect_createEmptyBoard rows cols :
  Rect (createEmptyBoard rows cols) (Z.max 0 rows) (Z.max 0 cols).
Proof.
  unfold Rect, rowsOf, createEmptyBoard. split.
  - rewrite length_fmap, length_seqZ. lia.
  - apply Forall_fmap, Forall_forall. intros y _. simpl.
    rewrite length_fmap, length_seqZ. lia.
Qed.

Lemma mineFree_createEmptyBoard rows cols : mineFree (createEmptyBoard rows cols).
Proof.
  intros x y c. rewrite cellAt_createEmptyBoard.
  case_decide; [|done]. by intros [= <-].
Qed.

(** C10. On every board that [placeMines] returns for a board of
    [createEmptyBoard], a cell that is a mine has [adjacent = 0]. *)
Theorem placeMines_mine_adjacent (rows cols mines : Z) (initial : Coord)
    (rnd : list Coord) (b' : Board) :
  placeMines (createEmptyBoard rows cols) mines initial rnd = Done b' ->
  forall x y c, cellAt b' x y = Some c -> isMine c = true -> adjacent c = 0.
Proof.
  intros Hrun x y c Hc Hm.
  destruct (placeMines_phases _ _ _ _ _ _ _ (Rect_createEmptyBoard rows cols) Hrun)
    as (b1 & Hloop & _ & _ & Hcells).
  destruct (placeLoop_spec _ _ _ _ _ _ 0 0 Hloop) as (_ & _ & _ & Hplaced).
  rewrite Hcells in Hc. destruct (cellAt b1 x y) as [c1|] eqn:Hc1; [|done].
  simpl in Hc. inversion Hc; subst. unfold adjust in *.
  destruct (isMine c1) eqn:Hm1; [|simpl in Hm; congruence].
  destruct (Hplaced x y) as [Hsame|(c0 & Hc0 & Hset)].
  - rewrite Hc1, cellAt_createEmptyBoard in Hsame.
    case_decide; [|done]. by inversion Hsame.
  - rewrite Hc1 in Hset. rewrite cellAt_createEmptyBoard in Hc0.
    case_decide; [|done]. inversion Hset; inversion Hc0; subst. done.
Qed.

(** ** Termination of the placement *)

Lemma NoDup_allCoords rows cols : NoDup (allCoords rows cols).
Proof.
  unfold allCoords. apply NoDup_bind; [| |apply NoDup_seqZ].
  - intros y1 y2 p _ _ (x1 & Hp1 & _)%list_elem_of_bind (x2 & Hp2 & _)%list_elem_of_bind.
    apply list_elem_of_singleton in Hp1, Hp2. congruence.
  - intros y _. apply NoDup_bind; [| |apply NoDup_seqZ].
    + intros x1 x2 p _ _ Hp1%list_elem_of_singleton Hp2%list_elem_of_singleton.
      congruence.
    + intros x _. apply NoDup_singleton.
Qed.

(** Two tests that differ at one element of a list without repetition. *)
Lemma count_one_less {A} (f g : A -> bool) (l : list A) (p : A) :
  NoDup l -> p ∈ l -> f p = true -> g p = false ->
  (forall q, q ∈ l -> q <> p -> g q = f q) ->
  (length (filter (fun q => g q = true) l) + 1
   = length (filter (fun q => f q = true) l))%nat.
Proof.
  intros Hnd Hp Hf Hg Hagree.
  assert (forall l', p ∉ l' -> (forall q, q ∈ l' -> q <> p -> g q = f q) ->
    length (filter (fun q => g q = true) l') = length (filter (fun q => f q = true) l'))
    as Hsame.
  { induction l' as [|q l' IH]; intros Hnot Hag; [done|].
    apply not_elem_of_cons in Hnot as [Hne Hnot].
    rewrite !filter_cons.
    assert (g q = f q) as -> by (apply Hag; [by left | congruence]).
    destruct (decide (f q = true)); simpl; rewrite IH; try done;
      intros q' Hq'; apply Hag; by right. }
  induction Hnd as [|q l Hq Hnd IH]; [by apply elem_of_nil in Hp|].
  rewrite !filter_cons. apply elem_of_cons in Hp as [<-|Hp].
  - destruct (decide (g p = true)) as [?|_]; [congruence|].
    destruct (decide (f p = true)) as [_|?]; [|congruence].
    simpl. rewrite Hsame; [lia|done|]. intros q Hq' Hne. apply Hagree; [by right|done].
  - assert (q <> p) as Hne by (intros ->; done).
    assert (g q = f q) as -> by (apply Hagree; [by left | congruence]).
    destruct (decide (f q = true)); simpl; rewrite <- IH; try done; try lia;
      intros q' Hq'; apply Hagree; by right.
Qed.

Lemma eligible_spec b initial p :
  eligible b initial p = true <->
  p <> initial /\ exists c, cellAt b p.1 p.2 = Some c /\ isMine c = false.
Proof.
  unfold eligible. destruct p as [px py], initial as [ix iy]. simpl.
  rewrite andb_true_iff, negb_true_iff, andb_false_iff, !Z.eqb_neq. split.
  - intros [Hne Hc]. split; [intros [= -> ->]; lia|].
    destruct (cellAt b px py) as [c|]; [|done]. exists c. split; [done|].
    by apply negb_true_iff.
  - intros [Hne (c & -> & Hm)]. split; [|by rewrite Hm].
    destruct (decide (px = ix)) as [->|?]; [|lia]. right. congruence.
Qed.

Section placing.
Context (rows cols mines : Z) (initial : Coord).


Lemma freeCells_update b p :
  Rect b rows cols -> eligible b initial p = true ->
  freeCells (update b p.1 p.2 setMine) rows cols initial + 1
  = freeCells b rows cols initial.
Proof.
  intros HR Hel. unfold freeCells.
  pose proof Hel as (Hne & c & Hc & Hm)%eligible_spec.
  rewrite <- (count_one_less (eligible b initial)
    (eligible (update b p.1 p.2 setMine) initial) (allCoords rows cols) p).
  - lia.
  - apply NoDup_allCoords.
  - apply elem_of_allCoords, (cellAt_inBounds b rows cols); [done|].
    destruct p. by exists c.
  - done.
  - unfold eligible. rewrite cellAt_update_eq, Hc. simpl. apply andb_false_r.
  - intros q _ Hq. unfold eligible. rewrite cellAt_update_ne; [done|].
    destruct p, q. done.
Qed.

Lemma freeCells_mineFree b :
  Rect b rows cols -> mineFree b -> inBounds rows cols initial ->
  freeCells b rows cols initial = rows * cols - 1.
Proof.
  intros HR Hfree Hin. unfold freeCells.
  pose proof (count_one_less (fun _ => true) (eligible b initial)
    (allCoords rows cols) initial (NoDup_allCoords rows cols)) as H.
  assert (filter (fun _ : Coord => true = true) (allCoords rows cols)
          = allCoords rows cols) as Hall.
  { generalize (allCoords rows cols). intros l.
    induction l as [|q l IH]; [done|]. rewrite filter_cons, decide_True by done.
    by rewrite IH. }
  cbv beta in H. rewrite Hall, length_allCoords in H.
  assert (Z.of_nat (Z.to_nat rows * Z.to_nat cols) = rows * cols) as Hmul.
  { destruct Hin as [Hx Hy]. rewrite Nat2Z.inj_mul, !Z2Nat.id by lia. done. }
  rewrite <- Hmul, <- H; [lia | | done | |].
  - by apply elem_of_allCoords.
  - apply not_true_is_false. intros [Hne _]%eligible_spec. done.
  - intros q Hq%elem_of_allCoords Hne. apply eligible_spec. split; [done|].
    apply (cellAt_inBounds b rows cols) in Hq as [c Hc]; [|done].
    exists c. split; [done|]. by eapply Hfree.
Qed.

Lemma freeCells_eligible b :
  0 < freeCells b rows cols initial ->
  exists p, inBounds rows cols p /\ eligible b initial p = true.
Proof.
  unfold freeCells. intros Hpos.
  destruct (filter (fun p => eligible b initial p = true) (allCoords rows cols))
    as [|p l] eqn:Hf; [simpl in Hpos; lia|].
  assert (p ∈ filter (fun p => eligible b initial p = true) (allCoords rows cols))
    as [Hel Hin%elem_of_allCoords]%list_elem_of_filter by (rewrite Hf; by left).
  by exists p.
Qed.

(** A draw that is refused leaves the loop where it was. *)
Lemma placeLoop_refuse b placed p rnd :
  Rect b rows cols -> inBounds rows cols p -> placed < mines ->
  eligible b initial p = false ->
  placeLoop b mines initial placed (p :: rnd) = placeLoop b mines initial placed rnd.
Proof.
  intros HR Hin Hlt Hel. destruct p as [px py]. cbn [placeLoop].
  rewrite decide_True by done. unfold eligible in Hel. simpl in Hel.
  destruct ((px =? initial.1) && (py =? initial.2)); [done|].
  apply (cellAt_inBounds b rows cols) in Hin as [c Hc]; [|done].
  unfold readCell. rewrite Hc in *. simpl in *.
  by destruct (isMine c).
Qed.

(** A draw that is accepted places a mine. *)
Lemma placeLoop_accept b placed p rnd :
  placed < mines -> eligible b initial p = true ->
  placeLoop b mines initial placed (p :: rnd)
  = placeLoop (update b p.1 p.2 setMine) mines initial (placed + 1) rnd.
Proof.
  intros Hlt Hel. destruct p as [px py]. cbn [placeLoop].
  rewrite decide_True by done. unfold eligible in Hel. simpl in *.
  destruct ((px =? initial.1) && (py =? initial.2)); [done|].
  unfold readCell. destruct (cellAt b px py) as [c|]; [simpl in *|done].
  by destruct (isMine c).
Qed.


Lemma firstDraws_S draws n :
  firstDraws draws (S n) = draws 0%nat :: firstDraws (fun i => draws (S i)) n.
Proof.
  unfold firstDraws. cbn [seq fmap list_fmap]. f_equal.
  rewrite <- fmap_S_seq, <- list_fmap_compose. done.
Qed.

Lemma firstDraws_add draws n k :
  firstDraws draws (n + k) = firstDraws draws n ++ firstDraws (fun i => draws (n + i)%nat) k.
Proof.
  revert draws. induction n as [|n IH]; intros draws; [done|].
  change (S n + k)%nat with (S (n + k)). rewrite !firstDraws_S, IH. done.
Qed.

Lemma fairDraws_shift draws n :
  fairDraws rows cols draws -> fairDraws rows cols (fun i => draws (n + i)%nat).
Proof.
  intros [Hin Hfair]. split; [done|]. intros p k Hp.
  destruct (Hfair p (n + k)%nat Hp) as (m & Hm & Hdraw).
  exists (m - n)%nat. split; [lia|]. rewrite <- Hdraw. f_equal. lia.
Qed.

(** While a free cell is left, fair draws place the next mine. *)
Lemma placeLoop_next m : forall draws b placed,
  Rect b rows cols -> (forall n, inBounds rows cols (draws n)) ->
  placed < mines -> eligible b initial (draws m) = true ->
  exists k b1, Rect b1 rows cols /\
    freeCells b1 rows cols initial + 1 = freeCells b rows cols initial /\
    forall rest, placeLoop b mines initial placed (firstDraws draws k ++ rest)
                 = placeLoop b1 mines initial (placed + 1) rest.
Proof.
  induction m as [|m IH]; intros draws b placed HR Hin Hlt Hel.
  - exists 1%nat, (update b (draws 0%nat).1 (draws 0%nat).2 setMine).
    split_and!; [by apply Rect_update | by apply freeCells_update |].
    intros rest. by apply placeLoop_accept.
  - destruct (eligible b initial (draws 0%nat)) eqn:Hel0.
    + exists 1%nat, (update b (draws 0%nat).1 (draws 0%nat).2 setMine).
      split_and!; [by apply Rect_update | by apply freeCells_update |].
      intros rest. by apply placeLoop_accept.
    + destruct (IH (fun i => draws (S i)) b placed HR) as (k & b1 & HR1 & Hfree & Hrun);
        [done..|].
      exists (S k), b1. split_and!; [done..|]. intros rest.
      rewrite firstDraws_S. cbn [app]. rewrite placeLoop_refuse by done.
      apply Hrun.
Qed.

Lemma placeLoop_fair n : forall draws b placed,
  Z.to_nat (mines - placed) = n ->
  Rect b rows cols -> fairDraws rows cols draws ->
  mines - placed <= freeCells b rows cols initial ->
  exists k b', placeLoop b mines initial placed (firstDraws draws k) = Done b'.
Proof.
  induction n as [|n IH]; intros draws b placed Hn HR Hfair Hfree.
  - exists 0%nat, b. cbn. by rewrite decide_False by lia.
  - destruct (freeCells_eligible b) as (p & Hp & Hel); [lia|].
    destruct Hfair as [Hin Hmeet]. destruct (Hmeet p 0%nat Hp) as (m & _ & Hm).
    destruct (placeLoop_next m draws b placed HR Hin) as (k & b1 & HR1 & Hfree1 & Hrun);
      [lia | by rewrite Hm |].
    destruct (IH (fun i => draws (k + i)%nat) b1 (placed + 1)) as (k' & b' & Hdone);
      [lia | done | by apply (fairDraws_shift draws k) | lia |].
    exists (k + k')%nat, b'. by rewrite firstDraws_add, Hrun.
Qed.
End placing.

Lemma fairDraws_roundRobin rows cols :
  0 < rows -> 0 < cols -> fairDraws rows cols (roundRobin rows cols).
Proof.
  intros Hrows Hcols. unfold roundRobin. split.
  - intros n. unfold inBounds. simpl.
    pose proof (Z.mod_pos_bound (Z.of_nat n) cols Hcols).
    pose proof (Z.mod_pos_bound (Z.of_nat n / cols) rows Hrows). lia.
  - intros [px py] n [Hx Hy]. simpl in *.
    exists (Z.to_nat (px + (py + Z.of_nat n * rows) * cols)).
    assert (0 <= Z.of_nat n * rows) by lia.
    assert (0 <= (py + Z.of_nat n * rows) * cols) by lia.
    split; [nia|]. rewrite Z2Nat.id by lia.
    rewrite Z.mod_add, Z.div_add by lia.
    rewrite (Z.mod_small px), (Z.div_small px) by lia.
    rewrite Z.add_0_l, Z.mod_add by lia. rewrite Z.mod_small by lia. done.
Qed.


(** With at least as many free cells as mines to place, [placeMines]
    returns within a finite number of fair draws. *)
Lemma placeMines_fair b rows cols mines initial draws :
  Rect b rows cols -> 0 < rows ->
  mines <= freeCells b rows cols initial ->
  fairDraws rows cols draws ->
  exists n b', placeMines b mines initial (firstDraws draws n) = Done b'.
Proof.
  intros HR Hrows Hfree Hfair. unfold placeMines.
  rewrite (colsOf_Rect b rows cols HR Hrows). simpl.
  destruct (placeLoop_fair rows cols mines initial (Z.to_nat (mines - 0)) draws b 0)
    as (n & b1 & Hloop); [done..|lia|].
  exists n. rewrite Hloop. simpl.
  destruct (placeLoop_spec _ _ _ _ _ _ rows cols Hloop) as (HR1 & _).
  assert (rowsOf b = rows) as -> by apply HR.
  destruct (computeAdjacent_spec b1 rows cols (HR1 HR)) as (b' & Hadj & _).
  by exists b'.
Qed.

(** ** The number of free cells *)







(** ** The handlers *)

Lemma copyBoard_id b : copyBoard b = b.
Proof.
  unfold copyBoard. rewrite <- (list_fmap_id b) at 2.
  apply list_fmap_ext. intros _ row _. rewrite <- (list_fmap_id row) at 2.
  apply list_fmap_ext. intros _ c _. by destruct c.
Qed.

Lemma cellAt_mapMines f b x y :
  cellAt (mapMines f b) x y = (fun c => if isMine c then f c else c) <$> cellAt b x y.
Proof.
  unfold cellAt, index, mapMines.
  destruct (decide (0 <= y)); [|done]. rewrite list_lookup_fmap.
  destruct (b !! Z.to_nat y) as [row|]; [simpl|done].
  destruct (decide (0 <= x)); [|done]. by rewrite list_lookup_fmap.
Qed.

Lemma Rect_mapMines f b rows cols :
  Rect b rows cols -> Rect (mapMines f b) rows cols.
Proof.
  intros [Hr Hc]. unfold mapMines, Rect, rowsOf in *. rewrite length_fmap.
  split; [done|]. apply Forall_fmap. eapply Forall_impl; [done|].
  intros row Hrow. simpl. by rewrite length_fmap.
Qed.

(** A click, in a started game, on a hidden mine without a flag. *)
Lemma handleCellClick_mine s x y rnd c :
  status s = playing -> started s = true ->
  cellAt (board s) x y = Some c ->
  isFlagged c = false -> isRevealed c = false -> isMine c = true ->
  handleCellClick s x y rnd =
  Returned (mkSession (difficulty s)
              (mapMines setRevealed (update (board s) x y setRevealed))
              lost true (timer s)).
Proof.
  intros Hst Hstarted Hc Hf Hr Hm. unfold handleCellClick.
  rewrite decide_False by (rewrite Hst; tauto).
  rewrite copyBoard_id, Hc, Hf, Hr, Hstarted. simpl. rewrite Hc. simpl.
  by rewrite Hm.
Qed.

(** C6 (as amended). For a coordinate outside a rectangular board, the
    click handler throws while the game is being played and returns
    otherwise, and the right-click handler throws while a started game is
    being played and returns otherwise; either way the session is the one
    it was. *)
Theorem handlers_out_of_bounds (s : Session) (rows cols x y : Z) (rnd : list Coord) :
  Rect (board s) rows cols -> ~ inBounds rows cols (x, y) ->
  handleCellClick s x y rnd
  = (if decide (status s = playing) then Thrown s else Returned s) /\
  handleCellRightClick s x y
  = (if decide (status s = playing /\ started s = true) then Thrown s else Returned s).
Proof.
  intros HR Hout.
  pose proof (cellAt_None_outside _ _ _ _ _ HR Hout) as Hnone.
  unfold handleCellClick, handleCellRightClick. rewrite copyBoard_id, Hnone.
  split.
  - destruct (decide (status s = playing)) as [->|Hne].
    + by rewrite decide_False by tauto.
    + by rewrite decide_True.
  - destruct (decide (status s = playing /\ started s = true)) as [[-> ->]|Hne].
    + rewrite bool_decide_eq_false_2 by tauto. done.
    + destruct (decide (status s = playing)) as [Hp|Hp].
      * rewrite bool_decide_eq_false_2 by tauto.
        destruct (started s); [tauto|done].
      * by rewrite bool_decide_eq_true_2.
Qed.

Lemma cellwise_mineAt f b b' :
  cellwise f b b' -> (forall p c, isMine (f p c) = isMine c) ->
  forall q, mineAt b' q = mineAt b q.
Proof.
  intros Hcw Hf [qx qy]. unfold mineAt. simpl. rewrite Hcw.
  destruct (cellAt b qx qy); [simpl|done]. apply Hf.
Qed.

Lemma cellwise_adjacencyOK f b b' :
  cellwise f b b' ->
  (forall p c, isMine (f p c) = isMine c /\ adjacent (f p c) = adjacent c) ->
  adjacencyOK b -> adjacencyOK b'.
Proof.
  intros Hcw Hf Hadj x y c' Hc' Hm. rewrite Hcw in Hc'.
  destruct (cellAt b x y) as [c|] eqn:Hc; [|done]. simpl in Hc'.
  inversion Hc'; subst.
  destruct (Hf (x, y) c) as [Hm' Ha']. rewrite Ha'.
  rewrite (mineNeighbours_ext b b') by (apply (cellwise_mineAt f); [done | apply Hf]).
  apply Hadj; [done | congruence].
Qed.

Lemma cellwise_update b x y g :
  cellwise (fun p c => if decide (p = (x, y)) then g c else c) b (update b x y g).
Proof.
  intros px py. rewrite cellAt_update.
  destruct (decide (x = px /\ y = py)) as [[-> ->]|Hne].
  - destruct (cellAt b px py); [simpl|done]. by rewrite decide_True.
  - destruct (cellAt b px py); [simpl|done]. rewrite decide_False; [done|].
    intros [= -> ->]. tauto.
Qed.

(** No mine lies next to a cell the fill expands from, nor anywhere the
    fill gets to from a cell that is not a mine. *)
Lemma opens_no_mine b p q :
  adjacencyOK b -> opens b p -> adj8 p q -> mineAt b q = false.
Proof.
  intros Hadj (c & Hc & _ & _ & Hzero & Hm) Ha.
  destruct p as [px py]. simpl in Hc.
  pose proof (Hadj px py c Hc Hm) as Hcount. rewrite Hzero in Hcount.
  unfold mineNeighbours in Hcount.
  destruct (mineAt b q) eqn:Hq; [|done]. exfalso.
  apply adj8_neighbours8 in Ha.
  assert (q ∈ filter (fun q => mineAt b q = true) (neighbours8 (px, py))) as Hin
    by (by apply list_elem_of_filter).
  destruct (filter _ _); [by apply elem_of_nil in Hin | simpl in Hcount; lia].
Qed.

Lemma reach_no_mine b rows cols s q :
  adjacencyOK b -> mineAt b s = false ->
  reach b rows cols s q -> mineAt b q = false.
Proof.
  intros Hadj Hs. induction 1 as [|p q _ _ Ho Ha _]; [done|].
  by eapply opens_no_mine.
Qed.

(** The three board invariants after a fill from a cell that is not a
    mine. *)
Lemma revealCell_keeps b rows cols x y c :
  Rect b rows cols -> adjacencyOK b -> minesHidden b -> noneBoth b ->
  cellAt b x y = Some c -> isMine c = false ->
  exists b', revealCell b x y = Done b' /\ Rect b' rows cols /\
    adjacencyOK b' /\ minesHidden b' /\ noneBoth b'.
Proof.
  intros HR Hadj Hhid Hboth Hc Hm.
  assert (inBounds rows cols (x, y)) as Hin
    by (apply (cellAt_inBounds b rows cols); [done | by exists c]).
  destruct (revealCell_run b rows cols x y HR Hin) as (st & Hrun & Hinv & Hempty & _).
  exists (fboard st). split; [done|].
  pose proof (inv_cells _ _ _ _ _ Hinv) as Hcells.
  pose proof (fillInv_final_visited b rows cols (x, y) st Hinv Hempty) as Hvis.
  split_and!.
  - apply Hinv.
  - apply (cellwise_adjacencyOK (marked (visited st)) b); [done| |done].
    intros p c0. unfold marked. destruct (decide _); [|done].
    split; apply touch_fields.
  - intros px py c' Hc' Hm'. rewrite Hcells in Hc'.
    destruct (cellAt b px py) as [c0|] eqn:Hc0; [|done]. simpl in Hc'.
    inversion Hc'; subst. unfold marked in *.
    destruct (decide ((px, py) ∈ visited st)) as [Hv|Hv]; [|by eapply Hhid].
    rewrite (proj1 (touch_fields c0)) in Hm'.
    apply Hvis in Hv. apply (reach_no_mine b rows cols (x, y)) in Hv; [|done|].
    + unfold mineAt in Hv. simpl in Hv. rewrite Hc0 in Hv. congruence.
    + unfold mineAt. simpl. by rewrite Hc.
  - intros px py c' Hc' [Hr' Hf']. rewrite Hcells in Hc'.
    destruct (cellAt b px py) as [c0|] eqn:Hc0; [|done]. simpl in Hc'.
    inversion Hc'; subst. unfold marked, touch in *.
    destruct (decide ((px, py) ∈ visited st)) as [Hv|Hv]; [|by eapply Hboth].
    destruct (isRevealed c0 || isFlagged c0) eqn:Hrf; [by eapply Hboth|].
    simpl in Hf'. apply orb_false_iff in Hrf as [_ Hf0]. congruence.
Qed.

(** What [placeMines] leaves of the reveal and flag marks. *)
Lemma placeMines_frame b rows cols mines initial rnd b' :
  Rect b rows cols -> placeMines b mines initial rnd = Done b' ->
  Rect b' rows cols /\
  forall x y, isRevealed <$> cellAt b' x y = isRevealed <$> cellAt b x y /\
              isFlagged <$> cellAt b' x y = isFlagged <$> cellAt b x y.
Proof.
  intros HR Hrun.
  destruct (placeMines_phases b rows cols mines initial rnd b' HR Hrun)
    as (b1 & Hloop & _ & HR' & Hcells).
  destruct (placeLoop_spec _ _ _ _ _ _ rows cols Hloop) as (_ & _ & _ & Hplaced).
  split; [done|]. intros x y. rewrite Hcells.
  destruct (Hplaced x y) as [->|(c & -> & ->)].
  - destruct (cellAt b x y) as [c|]; [cbn -[adjust]|done].
    destruct (adjust_fields b1 (x, y) c) as (_ & -> & -> & _). done.
  - cbn -[adjust]. destruct (adjust_fields b1 (x, y) (setMine c)) as (_ & -> & -> & _). done.
Qed.

Lemma Rect_preset d :
  Rect (createEmptyBoard (rows (DIFFICULTIES d)) (cols (DIFFICULTIES d)))
       (rows (DIFFICULTIES d)) (cols (DIFFICULTIES d)).
Proof.
  pose proof (Rect_createEmptyBoard (rows (DIFFICULTIES d)) (cols (DIFFICULTIES d))) as H.
  by destruct d.
Qed.

Lemma sessionInv_fresh d tm :
  sessionInv (mkSession d
    (createEmptyBoard (rows (DIFFICULTIES d)) (cols (DIFFICULTIES d))) playing false tm).
Proof.
  split; simpl.
  - apply Rect_preset.
  - intros _ x y c. rewrite cellAt_createEmptyBoard. case_decide; [|done].
    by intros [= <-].
  - done.
  - intros _ x y c. rewrite cellAt_createEmptyBoard. case_decide; [|done].
    by intros [= <-].
  - intros x y c. rewrite cellAt_createEmptyBoard. case_decide; [|done].
    by intros [= <-].
Qed.

Lemma sessionInv_noneBoth s :
  sessionInv s -> status s <> lost -> noneBoth (board s).
Proof.
  intros Hinv Hst x y c Hc [Hr Hf].
  by destruct (si_both s Hinv x y c Hc Hr Hf).
Qed.

Lemma sessionInv_rightClick s x y s' :
  sessionInv s ->
  handleCellRightClick s x y = Returned s' \/ handleCellRightClick s x y = Thrown s' ->
  sessionInv s'.
Proof.
  intros Hinv Hres. unfold handleCellRightClick in Hres.
  destruct (bool_decide (status s <> playing) || negb (started s)) eqn:Hgate.
  { destruct Hres as [[= <-]|[=]]. done. }
  apply orb_false_iff in Hgate as [Hst%bool_decide_eq_false Hstarted%negb_false_iff].
  assert (status s = playing) as Hplaying
    by (destruct (decide (status s = playing)); [done | tauto]).
  rewrite copyBoard_id in Hres.
  destruct (cellAt (board s) x y) as [cell|] eqn:Hcell.
  2: { destruct Hres as [[=]|[= <-]]. done. }
  destruct (isRevealed cell) eqn:Hr.
  { destruct Hres as [[= <-]|[=]]. done. }
  destruct Hres as [[= <-]|[=]].
  pose proof (cellwise_update (board s) x y (setFlagged (negb (isFlagged cell)))) as Hcw.
  destruct Hinv as [HR Hfresh Hadj Hhid Hboth].
  split; simpl.
  - by apply Rect_update.
  - congruence.
  - intros _. eapply cellwise_adjacencyOK; [done| |by apply Hadj].
    intros p c. simpl. by destruct (decide (p = (x, y))).
  - intros _ px py c'. rewrite Hcw.
    destruct (cellAt (board s) px py) as [c|] eqn:Hc; [|done]. simpl.
    intros [= <-] Hm. rewrite Hplaying in Hhid.
    destruct (decide ((px, py) = (x, y))); simpl in *; eapply Hhid; eauto.
  - intros px py c'. rewrite Hcw.
    destruct (cellAt (board s) px py) as [c|] eqn:Hc; [|done]. simpl.
    intros [= <-]. destruct (decide ((px, py) = (x, y))) as [[= -> ->]|Hne].
    + simpl. rewrite Hc in Hcell. inversion Hcell; subst. congruence.
    + by apply (Hboth px py).
Qed.

(** The board after the placement of the first click, or the board of a
    started game: what the rest of the click handler works on. *)
Lemma click_board s x y rnd cell b1 :
  sessionInv s -> status s = playing ->
  cellAt (board s) x y = Some cell ->
  isFlagged cell || isRevealed cell = false ->
  (if started s then Done (board s)
   else placeMines (board s) (mines (DIFFICULTIES (difficulty s))) (x, y) rnd) = Done b1 ->
  Rect b1 (rows (DIFFICULTIES (difficulty s))) (cols (DIFFICULTIES (difficulty s))) /\
  adjacencyOK b1 /\ minesHidden b1 /\ noneBoth b1 /\
  exists c1, cellAt b1 x y = Some c1 /\ isFlagged c1 = false /\ isRevealed c1 = false.
Proof.
  intros Hinv Hplaying Hcell Hfr Hplace.
  apply orb_false_iff in Hfr as [Hf Hr].
  destruct (started s) eqn:Hstarted.
  - inversion Hplace; subst. split_and!.
    + apply Hinv.
    + by apply Hinv.
    + apply Hinv. congruence.
    + apply sessionInv_noneBoth; [done | congruence].
    + by exists cell.
  - destruct (placeMines_frame _ _ _ _ _ _ _ (si_rect s Hinv) Hplace) as [HR1 Hframe].
    assert (forall px py c, cellAt b1 px py = Some c ->
      isRevealed c = false /\ isFlagged c = false) as Hclean.
    { intros px py c Hc. destruct (Hframe px py) as [Hr' Hf'].
      rewrite Hc in Hr', Hf'.
      destruct (cellAt (board s) px py) as [c0|] eqn:Hc0; [|done].
      destruct (si_fresh s Hinv Hstarted px py c0 Hc0) as (_ & Hr0 & Hf0).
      simpl in *. split; congruence. }
    split_and!.
    + done.
    + by eapply placeMines_adjacencyOK; [apply (si_rect s Hinv) | done].
    + intros px py c Hc _. by destruct (Hclean px py c Hc).
    + intros px py c Hc [Hr' _]. destruct (Hclean px py c Hc). congruence.
    + destruct (Hframe x y) as [Hr' _]. rewrite Hcell in Hr'.
      destruct (cellAt b1 x y) as [c1|] eqn:Hc1; [|done].
      exists c1. split; [done|]. destruct (Hclean x y c1 Hc1). done.
Qed.

Lemma sessionInv_click s x y rnd s' :
  sessionInv s ->
  handleCellClick s x y rnd = Returned s' \/ handleCellClick s x y rnd = Thrown s' ->
  sessionInv s'.
Proof.
  intros Hinv Hres. unfold handleCellClick in Hres.
  destruct (decide (status s <> playing)) as [Hst|Hst].
  { destruct Hres as [[= <-]|[=]]. done. }
  assert (status s = playing) as Hplaying
    by (destruct (decide (status s = playing)); [done | tauto]).
  rewrite copyBoard_id in Hres.
  destruct (cellAt (board s) x y) as [cell|] eqn:Hcell.
  2: { destruct Hres as [[=]|[= <-]]. done. }
  destruct (isFlagged cell || isRevealed cell) eqn:Hfr.
  { destruct Hres as [[= <-]|[=]]. done. }
  destruct (if started s then Done (board s) else _) as [b1| |] eqn:Hplace.
  2: { destruct Hres as [[=]|[= <-]]. done. }
  2: { destruct Hres as [[=]|[=]]. }
  destruct (click_board s x y rnd cell b1 Hinv Hplaying Hcell Hfr Hplace)
    as (HR1 & Hadj1 & Hhid1 & Hboth1 & c1 & Hc1 & Hf1 & Hr1).
  simpl in Hres. rewrite Hc1 in Hres. simpl in Hres.
  destruct (isMine c1) eqn:Hm1.
  - destruct Hres as [[= <-]|[=]].
    pose proof (cellwise_update b1 x y setRevealed) as Hcw.
    assert (cellwise (fun p c => if isMine c then setRevealed c else c) b1
              (mapMines setRevealed (update b1 x y setRevealed))) as Hcells.
    { intros px py. rewrite cellAt_mapMines, Hcw.
      destruct (cellAt b1 px py) as [c|] eqn:Hc; [simpl|done]. f_equal.
      destruct (decide ((px, py) = (x, y))) as [[= -> ->]|Hne]; [|done].
      rewrite Hc1 in Hc. inversion Hc; subst. simpl. by rewrite Hm1. }
    split; simpl.
    + by apply Rect_mapMines, Rect_update.
    + done.
    + intros _. eapply cellwise_adjacencyOK; [done| |done].
      intros p c. simpl. destruct (isMine c) eqn:Hm; simpl; auto.
    + done.
    + intros px py c'. rewrite Hcells.
      destruct (cellAt b1 px py) as [c|] eqn:Hc; [|done]. simpl.
      intros [= <-]. destruct (isMine c) eqn:Hm; [simpl; by rewrite Hm|].
      intros Hr Hf. by destruct (Hboth1 px py c Hc).
  - destruct (revealCell_keeps b1 _ _ x y c1 HR1 Hadj1 Hhid1 Hboth1 Hc1 Hm1)
      as (b2 & Hreveal & HR2 & Hadj2 & Hhid2 & Hboth2).
    rewrite Hreveal in Hres.
    destruct (checkWin b2 (mines (DIFFICULTIES (difficulty s)))).
    + destruct Hres as [[= <-]|[=]].
      assert (cellwise (fun p c => if isMine c then setFlagged true c else c) b2
                (mapMines (setFlagged true) b2)) as Hcells
        by (intros px py; apply cellAt_mapMines).
      split; simpl.
      * by apply Rect_mapMines.
      * done.
      * intros _. eapply cellwise_adjacencyOK; [done| |done].
        intros p c. simpl. destruct (isMine c) eqn:Hm; simpl; auto.
      * intros _ px py c'. rewrite Hcells.
        destruct (cellAt b2 px py) as [c|] eqn:Hc; [|done]. simpl.
        intros [= <-]. destruct (isMine c) eqn:Hm; [simpl|congruence].
        intros _. by eapply Hhid2.
      * intros px py c'. rewrite Hcells.
        destruct (cellAt b2 px py) as [c|] eqn:Hc; [|done]. simpl.
        intros [= <-]. destruct (isMine c) eqn:Hm; simpl.
        -- intros Hr _. rewrite (Hhid2 px py c Hc Hm) in Hr. done.
        -- intros Hr Hf. by destruct (Hboth2 px py c Hc).
    + destruct Hres as [[= <-]|[=]]. split; simpl.
      * done.
      * done.
      * done.
      * done.
      * intros px py c Hc Hr Hf. by destruct (Hboth2 px py c Hc).
Qed.

(** The clock does not touch what the invariant is about. *)
Lemma sessionInv_tick s : sessionInv s -> sessionInv (tick s).
Proof. intros [HR Hfresh Hadj Hhid Hboth]. by split. Qed.

(** Every session the component gets to keeps the invariant. *)
Lemma reachable_inv s : reachable s -> sessionInv s.
Proof.
  induction 1 as [|s a s' _ IH Hact|s a s' _ IH Hact|s _ IH _ _];
    [| | |by apply sessionInv_tick].
  - apply sessionInv_fresh.
  - destruct a as [x y rnd|x y| |d]; simpl in Hact.
    + eapply sessionInv_click; eauto.
    + eapply sessionInv_rightClick; eauto.
    + inversion Hact; subst. apply sessionInv_fresh.
    + inversion Hact; subst. apply sessionInv_fresh.
  - destruct a as [x y rnd|x y| |d]; simpl in Hact; try discriminate.
    + eapply sessionInv_click; eauto.
    + eapply sessionInv_rightClick; eauto.
Qed.

(** C7 (as amended). In every session the component gets to, a cell that
    is revealed and flagged at once is a mine and the game is lost: while
    the game is played or won, no cell is both. *)
Theorem revealed_flagged_only_lost (s : Session) (x y : Z) (c : Cell) :
  reachable s -> cellAt (board s) x y = Some c ->
  isRevealed c = true -> isFlagged c = true ->
  isMine c = true /\ status s = lost.
Proof. intros Hs. apply (si_both s (reachable_inv s Hs)). Qed.

(** C5. In every started session, and in every session the component
    gets to (whatever its clock shows), while the game is played, a click
    on a hidden, unflagged cell that is a mine returns a lost game whose
    board has every mine revealed and every flag as it was. *)
Theorem click_mine_loses (s : Session) (x y : Z) (rnd : list Coord) (c : Cell) :
  started s = true \/ reachable s -> status s = playing ->
  cellAt (board s) x y = Some c ->
  isFlagged c = false -> isRevealed c = false -> isMine c = true ->
  exists s', handleCellClick s x y rnd = Returned s' /\ status s' = lost /\
    (forall px py c', cellAt (board s') px py = Some c' ->
       isMine c' = true -> isRevealed c' = true) /\
    (forall px py, isFlagged <$> cellAt (board s') px py
                   = isFlagged <$> cellAt (board s) px py).
Proof.
  intros Hs Hplaying Hc Hf Hr Hm.
  assert (started s = true) as Hstarted.
  { destruct Hs as [Hstarted|Hs]; [done|].
    pose proof (reachable_inv s Hs) as Hinv.
    destruct (started s) eqn:Hst; [done|].
    destruct (si_fresh s Hinv Hst x y c Hc). congruence. }
  eexists. split; [by eapply handleCellClick_mine|]. simpl. split; [done|].
  pose proof (cellwise_update (board s) x y setRevealed) as Hcw.
  split.
  - intros px py c'. rewrite cellAt_mapMines, Hcw.
    destruct (cellAt (board s) px py) as [c0|]; [simpl|done].
    intros [= <-]. destruct (decide _); simpl; destruct (isMine c0) eqn:Hm0;
      simpl; congruence.
  - intros px py. rewrite cellAt_mapMines, Hcw.
    destruct (cellAt (board s) px py) as [c0|]; [simpl|done].
    f_equal. destruct (decide _); simpl; by destruct (isMine c0).
Qed.

Lemma run_reachable actions : forall s s',
  reachable s -> run s actions = Some s' -> reachable s'.
Proof.
  induction actions as [|a actions IH]; intros s s' Hs Hrun; simpl in Hrun.
  - injection Hrun as <-. done.
  - destruct (act s a) as [s1|s1|] eqn:Hact; [| |done].
    + apply (IH s1); [|done]. by eapply reach_returned.
    + apply (IH s1); [|done]. by eapply reach_thrown.
Qed.

Lemma reachable_flaggedSession : reachable flaggedSession.
Proof.
  apply (run_reachable [Click 0 7 lastRowDraws; RightClick 8 8] initialSession);
    [constructor | vm_compute; reflexivity].
Qed.

Lemma reachable_laterSession : reachable laterSession.
Proof.
  apply reach_tick; [apply reach_tick; [apply reachable_flaggedSession|..]|..];
    reflexivity.
Qed.

Lemma reachable_lostSession : reachable lostSession.
Proof.
  apply (run_reachable [Click 7 8 []] flaggedSession);
    [apply reachable_flaggedSession | vm_compute; reflexivity].
Qed.

Lemma reachable_corridorSession : reachable corridorSession.
Proof.
  apply (run_reachable
    [Click 0 3 thirdRowDraws; RightClick 0 0; RightClick 2 0; Click 1 0 [];
     RightClick 0 0; RightClick 2 0] initialSession);
    [constructor | vm_compute; reflexivity].
Qed.

(** ** The statements at concrete boards and sessions *)

Lemma Rect_corridor : Rect corridor 1 3.
Proof. split; [reflexivity | repeat constructor]. Qed.

Lemma Rect_smallBoard : Rect smallBoard 3 4.
Proof. split; [reflexivity | repeat constructor]. Qed.


Lemma inBounds_origin rows cols : 0 < rows -> 0 < cols -> inBounds rows cols (0, 0).
Proof. unfold inBounds. simpl. lia. Qed.

(** C1 as the specification states it does not hold on [corridor]: the third cell is
    in the connected component of the first among the cells with no mine
    around, and [revealCell] from the first cell stops at the revealed
    second cell and leaves the third hidden. *)
Lemma revealCell_stops_at_revealed :
  revealCell corridor 0 0
  = Done [[mkCell 0 0 false true false 0; mkCell 1 0 false true false 0;
           mkCell 2 0 false false false 0]] /\
  claimedRevealed corridor (0, 0) (2, 0) /\
  cellAt corridor 2 0 = Some (mkCell 2 0 false false false 0).
Proof.
  split; [vm_compute; reflexivity|]. split; [|reflexivity].
  assert (forall px, 0 <= px < 3 -> zeroCell corridor (px, 0)) as Hzero.
  { intros px Hpx. assert (px = 0 \/ px = 1 \/ px = 2) as [-> | [-> | ->]] by lia;
      eexists; (split; [reflexivity|done]). }
  assert (forall px, adj8 (px, 0) (px + 1, 0)) as Hadj.
  { intros px. unfold adj8. simpl. split; [intros Heq; inversion Heq; lia | lia]. }
  split.
  - left. apply (component_next _ _ (1, 0)); [|apply (Hadj 1) | apply Hzero; lia].
    apply (component_next _ _ (0, 0)); [|apply (Hadj 0) | apply Hzero; lia].
    constructor. apply Hzero. lia.
  - eexists. split; [reflexivity|done].
Qed.

(** The same in play: in [corridorSession], a session of a beginner game,
    the first three cells of the first row have no mine around, the second
    is revealed, and the fill from the first leaves the third hidden. *)
Example revealCell_stops_in_play :
  reachable corridorSession /\
  claimedRevealed (board corridorSession) (0, 0) (2, 0) /\
  (b' ← revealCell (board corridorSession) 0 0; Done (isRevealed <$> cellAt b' 2 0))
  = Done (Some false).
Proof.
  split; [apply reachable_corridorSession|]. split; [|vm_compute; reflexivity].
  assert (forall px, 0 <= px < 3 -> zeroCell (board corridorSession) (px, 0)) as Hzero.
  { intros px Hpx. assert (px = 0 \/ px = 1 \/ px = 2) as [-> | [-> | ->]] by lia;
      eexists; (split; [reflexivity|done]). }
  assert (forall px, adj8 (px, 0) (px + 1, 0)) as Hadj.
  { intros px. unfold adj8. simpl. split; [intros Heq; inversion Heq; lia | lia]. }
  split.
  - left. apply (component_next _ _ (1, 0)); [|apply (Hadj 1) | apply Hzero; lia].
    apply (component_next _ _ (0, 0)); [|apply (Hadj 0) | apply Hzero; lia].
    constructor. apply Hzero. lia.
  - eexists. split; [reflexivity|done].
Qed.

(** [revealCell_reveals] on [corridor], from its first cell. *)
Lemma revealCell_reveals_witness :
  Rect corridor 1 3 /\ inBounds 1 3 (0, 0) /\
  exists b', revealCell corridor 0 0 = Done b' /\
    (forall p, newlyRevealed corridor b' p <-> fillTarget corridor 1 3 (0, 0) p) /\
    (forall b'', fillRun corridor 1 3 (0, 0) b'' -> b'' = b') /\
    (forall px py c, cellAt corridor px py = Some c ->
       isRevealed c = true \/ isFlagged c = true -> cellAt b' px py = Some c).
Proof.
  split; [apply Rect_corridor|]. split; [apply inBounds_origin; lia|].
  apply (revealCell_reveals corridor 1 3 0 0);
    [apply Rect_corridor | apply inBounds_origin; lia].
Defined.

(** [revealCell_frame] on [smallBoard], from its upper right corner. *)
Lemma revealCell_frame_witness :
  Rect smallBoard 3 4 /\ inBounds 3 4 (3, 0) /\
  exists b', revealCell smallBoard 3 0 = Done b' /\ Rect b' 3 4 /\
    (forall px py c, cellAt smallBoard px py = Some c ->
       exists c', cellAt b' px py = Some c' /\
         isMine c' = isMine c /\ isFlagged c' = isFlagged c /\
         adjacent c' = adjacent c /\ x c' = x c /\ y c' = y c) /\
    countFlags b' = countFlags smallBoard.
Proof.
  assert (inBounds 3 4 (3, 0)) as Hin by (unfold inBounds; simpl; lia).
  split; [apply Rect_smallBoard|]. split; [exact Hin|].
  apply (revealCell_frame smallBoard 3 4 3 0); [apply Rect_smallBoard | exact Hin].
Defined.

(** [checkWin_spec] on [corridor], whose first cell is hidden. *)
Lemma checkWin_spec_witness :
  checkWin corridor 0 = false.
Proof.
  apply (checkWin_spec corridor 0).
  exists 0, 0, (mkCell 0 0 false false false 0). split_and!; reflexivity.
Defined.

(** [placeMines_adjacent] at the cell of [smallBoard] between its two mines. *)
Lemma placeMines_adjacent_witness :
  Rect (createEmptyBoard 3 4) 3 4 /\
  placeMines (createEmptyBoard 3 4) 2 (0, 0) smallDraws = Done smallBoard /\
  adjacent (mkCell 2 1 false false false 2) = mineNeighbours smallBoard (2, 1) /\
  0 <= adjacent (mkCell 2 1 false false false 2) <= 8.
Proof.
  assert (Rect (createEmptyBoard 3 4) 3 4) as HR by apply (Rect_createEmptyBoard 3 4).
  assert (placeMines (createEmptyBoard 3 4) 2 (0, 0) smallDraws = Done smallBoard)
    as Hrun by (vm_compute; reflexivity).
  split; [exact HR|]. split; [exact Hrun|].
  apply (placeMines_adjacent (createEmptyBoard 3 4) 3 4 2 (0, 0) smallDraws smallBoard
           HR Hrun 2 1); reflexivity.
Defined.

(** [placeMines_count] for the two mines of [smallBoard]. *)
Lemma placeMines_count_witness :
  Rect (createEmptyBoard 3 4) 3 4 /\ mineFree (createEmptyBoard 3 4) /\ 0 <= 2 /\
  placeMines (createEmptyBoard 3 4) 2 (0, 0) smallDraws = Done smallBoard /\
  countMines smallBoard = 2 /\ mineAt smallBoard (0, 0) = false.
Proof.
  assert (Rect (createEmptyBoard 3 4) 3 4) as HR by apply (Rect_createEmptyBoard 3 4).
  assert (placeMines (createEmptyBoard 3 4) 2 (0, 0) smallDraws = Done smallBoard)
    as Hrun by (vm_compute; reflexivity).
  split; [exact HR|]. split; [apply mineFree_createEmptyBoard|].
  split; [lia|]. split; [exact Hrun|].
  apply (placeMines_count (createEmptyBoard 3 4) 3 4 2 (0, 0) smallDraws smallBoard);
    [exact HR | apply mineFree_createEmptyBoard | lia | exact Hrun].
Defined.

(** [placeMines_mine_adjacent] at the first mine of [smallBoard]. *)
Lemma placeMines_mine_adjacent_witness :
  placeMines (createEmptyBoard 3 4) 2 (0, 0) smallDraws = Done smallBoard /\
  adjacent (mkCell 1 1 true false false 0) = 0.
Proof.
  assert (placeMines (createEmptyBoard 3 4) 2 (0, 0) smallDraws = Done smallBoard)
    as Hrun by (vm_compute; reflexivity).
  split; [exact Hrun|].
  apply (placeMines_mine_adjacent 3 4 2 (0, 0) smallDraws smallBoard Hrun 1 1);
    reflexivity.
Defined.



(** C6 as the specification states it does not hold in the first session:
    a click at column 9 of the nine-column grid throws, and so does a
    right click at row 9 of a started game. *)
Lemma click_outside_throws :
  handleCellClick initialSession 9 0 [] = Thrown initialSession /\
  handleCellRightClick flaggedSession 0 9 = Thrown flaggedSession.
Proof. split; vm_compute; reflexivity. Qed.

(** [handlers_out_of_bounds] for the first session and column 9. *)
Lemma handlers_out_of_bounds_witness :
  Rect (board initialSession) 9 9 /\ ~ inBounds 9 9 (9, 0) /\
  handleCellClick initialSession 9 0 []
  = (if decide (status initialSession = playing)
     then Thrown initialSession else Returned initialSession) /\
  handleCellRightClick initialSession 9 0
  = (if decide (status initialSession = playing /\ started initialSession = true)
     then Thrown initialSession else Returned initialSession).
Proof.
  assert (Rect (board initialSession) 9 9) as HR by apply (Rect_createEmptyBoard 9 9).
  assert (~ inBounds 9 9 (9, 0)) as Hout by (unfold inBounds; simpl; lia).
  split; [exact HR|]. split; [exact Hout|].
  apply (handlers_out_of_bounds initialSession 9 9 9 0 [] HR Hout).
Defined.

(** C7 as the specification states it does not hold in [lostSession]: the flagged
    mine in the corner is revealed by the loss and keeps its flag. *)
Lemma lost_mine_revealed_and_flagged :
  reachable lostSession /\
  cellAt (board lostSession) 8 8 = Some (mkCell 8 8 true true true 0).
Proof. split; [apply reachable_lostSession | reflexivity]. Qed.

(** [revealed_flagged_only_lost] at the flagged mine of [lostSession]. *)
Lemma revealed_flagged_only_lost_witness :
  reachable lostSession /\
  cellAt (board lostSession) 8 8 = Some (mkCell 8 8 true true true 0) /\
  isMine (mkCell 8 8 true true true 0) = true /\ status lostSession = lost.
Proof.
  split; [apply reachable_lostSession|]. split; [reflexivity|].
  apply (revealed_flagged_only_lost lostSession 8 8 (mkCell 8 8 true true true 0));
    [apply reachable_lostSession | reflexivity..].
Defined.

(** [click_mine_loses] for a click on a mine of [laterSession], two seconds
    into the game. *)
Lemma click_mine_loses_witness :
  (started laterSession = true \/ reachable laterSession) /\
  status laterSession = playing /\
  cellAt (board laterSession) 7 8 = Some (mkCell 7 8 true false false 0) /\
  exists s', handleCellClick laterSession 7 8 [] = Returned s' /\ status s' = lost /\
    (forall px py c', cellAt (board s') px py = Some c' ->
       isMine c' = true -> isRevealed c' = true) /\
    (forall px py, isFlagged <$> cellAt (board s') px py
                   = isFlagged <$> cellAt (board laterSession) px py).
Proof.
  assert (started laterSession = true \/ reachable laterSession) as Hs
    by (right; apply reachable_laterSession).
  split; [exact Hs|]. split; [reflexivity|]. split; [reflexivity|].
  apply (click_mine_loses laterSession 7 8 [] (mkCell 7 8 true false false 0) Hs);
    reflexivity.
Defined.

(** ** More on the board functions *)

Lemma checkWin_cells b m :
  checkWin b m = true <->
  forall x y c, cellAt b x y = Some c -> isMine c = false -> isRevealed c = true.
Proof.
  rewrite checkWin_all_revealed. split.
  - intros Hall x y c Hc. apply Hall. by eapply cellAt_elem_of.
  - intros Hall c (x & y & Hc)%elem_of_cellAt. by eapply Hall.
Qed.

(** The win test only looks at the cells that are not mines, and there at
    [isRevealed]. *)
Lemma checkWin_cellwise f b b' m :
  cellwise f b b' ->
  (forall p c, isMine (f p c) = isMine c /\
     (isMine c = false -> isRevealed (f p c) = isRevealed c)) ->
  checkWin b' m = checkWin b m.
Proof.
  intros Hcw Hf. apply eq_true_iff_eq. rewrite !checkWin_cells. split.
  - intros Hall x y c Hc Hm. destruct (Hf (x, y) c) as [Hm' Hr].
    rewrite <- Hr by done. apply (Hall x y); [|congruence].
    rewrite Hcw, Hc. done.
  - intros Hall x y c' Hc' Hm'. rewrite Hcw in Hc'.
    destruct (cellAt b x y) as [c|] eqn:Hc; [|done]. simpl in Hc'.
    inversion Hc'; subst. destruct (Hf (x, y) c) as [Hm Hr].
    rewrite Hm in Hm'. rewrite Hr by done. by eapply Hall.
Qed.

Lemma cellwise_Rect_count (P : Cell -> Prop) `{!forall c, Decision (P c)} f b b' rows cols :
  Rect b rows cols -> Rect b' rows cols -> cellwise f b b' ->
  (forall p c, P (f p c) <-> P c) ->
  length (filter P (mjoin b')) = length (filter P (mjoin b)).
Proof.
  intros HR HR' Hcw Hf. symmetry. apply (count_related P).
  eapply boards_related; [done..|].
  intros x y c c' Hc Hc'. rewrite Hcw, Hc in Hc'. simpl in Hc'.
  inversion Hc'; subst. symmetry. apply Hf.
Qed.

Lemma cellwise_countMines f b b' rows cols :
  Rect b rows cols -> Rect b' rows cols -> cellwise f b b' ->
  (forall p c, isMine (f p c) = isMine c) ->
  countMines b' = countMines b.
Proof.
  intros HR HR' Hcw Hf. unfold countMines. f_equal.
  apply (cellwise_Rect_count (fun c => isMine c = true) f b b' rows cols); [done..|].
  intros p c. by rewrite Hf.
Qed.

Lemma cellwise_mapMines g b :
  cellwise (fun _ c => if isMine c then g c else c) b (mapMines g b).
Proof. intros x y. apply cellAt_mapMines. Qed.

Lemma filter_length_iff {A} (P Q : A -> Prop) `{!forall a, Decision (P a)}
    `{!forall a, Decision (Q a)} (l : list A) :
  (forall a, a ∈ l -> P a <-> Q a) ->
  length (filter P l) = length (filter Q l).
Proof.
  induction l as [|a l IH]; intros Hall; [done|].
  rewrite !filter_cons.
  assert (P a <-> Q a) as Ha by (apply Hall; by left).
  assert (length (filter P l) = length (filter Q l)) as Hl
    by (apply IH; intros a' Ha'; apply Hall; by right).
  destruct (decide (P a)), (decide (Q a)); simpl; try lia; tauto.
Qed.

(** [placeMines] on a board without mines: the mines asked for, none at
    the excluded coordinate. *)
Lemma placeMines_places b rows cols mines initial rnd b' :
  Rect b rows cols -> mineFree b -> 0 <= mines ->
  placeMines b mines initial rnd = Done b' ->
  countMines b' = mines /\ mineAt b' initial = false.
Proof.
  intros HR Hfree Hmines Hrun.
  destruct (placeMines_phases b rows cols mines initial rnd b' HR Hrun)
    as (b1 & Hloop & HR1 & HR' & Hcells).
  destruct (placeLoop_spec _ _ _ _ _ _ rows cols Hloop) as (_ & Hcount & Hinit & _).
  rewrite (countMines_mineFree b Hfree) in Hcount. split.
  - rewrite (cellwise_countMines (adjust b1) b1 b' rows cols); [lia|done..|].
    intros p c. apply adjust_fields.
  - rewrite (adjust_mineAt b1 b1 b' Hcells). unfold mineAt. rewrite Hinit.
    destruct (cellAt b initial.1 initial.2) as [c|] eqn:Hc; [|done].
    by eapply Hfree.
Qed.

(** What [revealCell] returns, cell by cell. *)
Lemma revealCell_cellwise b rows cols x y :
  Rect b rows cols -> inBounds rows cols (x, y) ->
  exists b' seen, revealCell b x y = Done b' /\ Rect b' rows cols /\
    cellwise (marked seen) b b' /\ (x, y) ∈ seen /\
    forall p, p ∈ seen -> reach b rows cols (x, y) p.
Proof.
  intros HR Hin.
  destruct (revealCell_run b rows cols x y HR Hin) as (st & Hrun & Hinv & Hempty & _).
  pose proof (fillInv_final_visited b rows cols (x, y) st Hinv Hempty) as Hvis.
  exists (fboard st), (visited st). split_and!.
  - done.
  - apply Hinv.
  - intros px py. apply Hinv.
  - apply Hvis. constructor.
  - intros p. apply Hvis.
Qed.

Lemma marked_fields seen p c :
  isMine (marked seen p c) = isMine c /\ isFlagged (marked seen p c) = isFlagged c /\
  adjacent (marked seen p c) = adjacent c /\ x (marked seen p c) = x c /\
  y (marked seen p c) = y c.
Proof. unfold marked. destruct (decide _); [apply touch_fields | done]. Qed.

(** ** The ways a click ends *)

(** A click that ends either leaves the session as it was, or works on the
    board [b1] of the placement (the board of the session once started)
    and ends in one of the three ways of the handler. *)
Lemma click_cases s x y rnd s' :
  sessionInv s ->
  handleCellClick s x y rnd = Returned s' \/ handleCellClick s x y rnd = Thrown s' ->
  s' = s \/
  status s = playing /\
  exists cell b1 c1,
    cellAt (board s) x y = Some cell /\
    isFlagged cell = false /\ isRevealed cell = false /\
    (if started s then Done (board s)
     else placeMines (board s) (mines (DIFFICULTIES (difficulty s))) (x, y) rnd) = Done b1 /\
    Rect b1 (rows (DIFFICULTIES (difficulty s))) (cols (DIFFICULTIES (difficulty s))) /\
    adjacencyOK b1 /\ minesHidden b1 /\ noneBoth b1 /\
    cellAt b1 x y = Some c1 /\ isFlagged c1 = false /\ isRevealed c1 = false /\
    ((isMine c1 = true /\
      s' = mkSession (difficulty s) (mapMines setRevealed (update b1 x y setRevealed))
             lost true (timer s)) \/
     (isMine c1 = false /\
      exists b2, revealCell b1 x y = Done b2 /\
        ((checkWin b2 (mines (DIFFICULTIES (difficulty s))) = true /\
          s' = mkSession (difficulty s) (mapMines (setFlagged true) b2) won true (timer s)) \/
         (checkWin b2 (mines (DIFFICULTIES (difficulty s))) = false /\
          s' = mkSession (difficulty s) b2 playing true (timer s))))).
Proof.
  intros Hinv Hres. unfold handleCellClick in Hres.
  destruct (decide (status s <> playing)) as [Hst|Hst].
  { destruct Hres as [[= <-]|[=]]. by left. }
  assert (status s = playing) as Hplaying
    by (destruct (decide (status s = playing)); [done | tauto]).
  rewrite copyBoard_id in Hres.
  destruct (cellAt (board s) x y) as [cell|] eqn:Hcell.
  2: { destruct Hres as [[=]|[= <-]]. by left. }
  destruct (isFlagged cell || isRevealed cell) eqn:Hfr.
  { destruct Hres as [[= <-]|[=]]. by left. }
  destruct (if started s then Done (board s) else _) as [b1| |] eqn:Hplace.
  2: { destruct Hres as [[=]|[= <-]]. by left. }
  2: { destruct Hres as [[=]|[=]]. }
  destruct (click_board s x y rnd cell b1 Hinv Hplaying Hcell Hfr Hplace)
    as (HR1 & Hadj1 & Hhid1 & Hboth1 & c1 & Hc1 & Hf1 & Hr1).
  apply orb_false_iff in Hfr as [Hf Hr].
  right. split; [done|]. exists cell, b1, c1.
  split_and!; try done.
  simpl in Hres. rewrite Hc1 in Hres. simpl in Hres.
  destruct (isMine c1) eqn:Hm1.
  - left. split; [done|]. by destruct Hres as [[= <-]|[=]].
  - right. split; [done|].
    destruct (revealCell_keeps b1 _ _ x y c1 HR1 Hadj1 Hhid1 Hboth1 Hc1 Hm1)
      as (b2 & Hreveal & _).
    exists b2. split; [done|]. rewrite Hreveal, Hplaying in Hres.
    destruct (checkWin b2 (mines (DIFFICULTIES (difficulty s)))).
    + left. split; [done|]. by destruct Hres as [[= <-]|[=]].
    + right. split; [done|]. by destruct Hres as [[= <-]|[=]].
Qed.

Lemma preset_positive d :
  0 < rows (DIFFICULTIES d) /\ 0 < cols (DIFFICULTIES d) /\
  0 <= mines (DIFFICULTIES d) <= rows (DIFFICULTIES d) * cols (DIFFICULTIES d) - 1.
Proof. destruct d; simpl; lia. Qed.

Lemma checkWin_createEmptyBoard rows cols m :
  0 < rows -> 0 < cols -> checkWin (createEmptyBoard rows cols) m = false.
Proof.
  intros Hrows Hcols. apply not_true_is_false. rewrite checkWin_cells. intros Hall.
  specialize (Hall 0 0 (mkCell 0 0 false false false 0)).
  rewrite cellAt_createEmptyBoard in Hall.
  rewrite decide_True in Hall by (apply inBounds_origin; lia).
  by specialize (Hall eq_refl eq_refl).
Qed.

Lemma gameInv_fresh d tm :
  gameInv (mkSession d
    (createEmptyBoard (rows (DIFFICULTIES d)) (cols (DIFFICULTIES d))) playing false tm).
Proof.
  destruct (preset_positive d) as (Hrows & Hcols & _).
  split; simpl; try done.
  - apply sessionInv_fresh.
  - intros _. by apply checkWin_createEmptyBoard.
Qed.

Lemma gameInv_rightClick s x y s' :
  gameInv s ->
  handleCellRightClick s x y = Returned s' \/ handleCellRightClick s x y = Thrown s' ->
  gameInv s'.
Proof.
  intros Hinv Hres.
  pose proof (sessionInv_rightClick s x y s' (gi_base s Hinv) Hres) as Hbase'.
  unfold handleCellRightClick in Hres.
  destruct (bool_decide (status s <> playing) || negb (started s)) eqn:Hgate.
  { destruct Hres as [[= <-]|[=]]. done. }
  apply orb_false_iff in Hgate as [Hst%bool_decide_eq_false Hstarted%negb_false_iff].
  assert (status s = playing) as Hplaying
    by (destruct (decide (status s = playing)); [done | tauto]).
  rewrite copyBoard_id in Hres.
  destruct (cellAt (board s) x y) as [cell|] eqn:Hcell.
  2: { destruct Hres as [[=]|[= <-]]. done. }
  destruct (isRevealed cell) eqn:Hr.
  { destruct Hres as [[= <-]|[=]]. done. }
  destruct Hres as [[= <-]|[=]].
  pose proof (cellwise_update (board s) x y (setFlagged (negb (isFlagged cell)))) as Hcw.
  assert (forall (p : Coord) c,
    isMine (if decide (p = (x, y)) then setFlagged (negb (isFlagged cell)) c else c)
    = isMine c /\
    isRevealed (if decide (p = (x, y)) then setFlagged (negb (isFlagged cell)) c else c)
    = isRevealed c) as Hf.
  { intros p c. by destruct (decide (p = (x, y))). }
  split; simpl in *; try done.
  - intros _. rewrite <- (gi_count s Hinv Hstarted).
    eapply cellwise_countMines; [apply (si_rect s (gi_base s Hinv)) | apply Hbase' | done |].
    intros p c. apply Hf.
  - intros _. etrans; [|exact (gi_playing s Hinv Hplaying)].
    eapply checkWin_cellwise; [done|]. intros p c. split; [apply Hf|].
    intros _. apply Hf.
  - intros Hwon. congruence.
  - intros Hlost. congruence.
Qed.

Lemma gameInv_click s x y rnd s' :
  gameInv s ->
  handleCellClick s x y rnd = Returned s' \/ handleCellClick s x y rnd = Thrown s' ->
  gameInv s'.
Proof.
  intros Hinv Hres.
  pose proof (sessionInv_click s x y rnd s' (gi_base s Hinv) Hres) as Hbase'.
  destruct (click_cases s x y rnd s' (gi_base s Hinv) Hres)
    as [->|(Hplaying & cell & b1 & c1 & Hcell & Hf & Hr & Hplace & HR1 & Hadj1 & Hhid1
            & Hboth1 & Hc1 & Hf1 & Hr1 & Hend)]; [done|].
  destruct (preset_positive (difficulty s)) as (Hrows & Hcols & Hmines).
  assert (countMines b1 = mines (DIFFICULTIES (difficulty s)) /\
          (started s = false -> isMine c1 = false) /\
          (started s = true -> b1 = board s)) as (Hcount1 & Hsafe & Hsame).
  { destruct (started s) eqn:Hstarted.
    - inversion Hplace; subst. split_and!; [by apply Hinv | done | done].
    - assert (mineFree (board s)) as Hfree.
      { intros px py c Hc. by destruct (si_fresh s (gi_base s Hinv) Hstarted px py c Hc). }
      destruct (placeMines_places _ _ _ _ _ _ _ (si_rect s (gi_base s Hinv)) Hfree
                  (proj1 Hmines) Hplace) as [Hcount Hinit].
      split_and!; [done | | done]. intros _. unfold mineAt in Hinit. simpl in Hinit.
      by rewrite Hc1 in Hinit. }
  destruct Hend as [[Hm1 ->]|(Hm1 & b2 & Hreveal & Hend)].
  - (* lost *)
    assert (started s = true) as Hstarted.
    { destruct (started s); [done|]. rewrite Hsafe in Hm1; done. }
    rewrite (Hsame Hstarted) in *.
    pose proof (cellwise_update (board s) x y setRevealed) as Hcw.
    assert (cellwise (fun p c => if isMine c then setRevealed c else c) (board s)
              (mapMines setRevealed (update (board s) x y setRevealed))) as Hcells.
    { intros px py. rewrite cellAt_mapMines, Hcw.
      destruct (cellAt (board s) px py) as [c|] eqn:Hc; [simpl|done]. f_equal.
      destruct (decide ((px, py) = (x, y))) as [[= -> ->]|Hne]; [|done].
      rewrite Hc1 in Hc. inversion Hc; subst. simpl. by rewrite Hm1. }
    split; simpl; try done.
    + intros _. rewrite <- Hcount1.
      eapply cellwise_countMines; [apply HR1 | apply Hbase' | done |].
      intros p c. simpl. by destruct (isMine c) eqn:Hm.
    + intros _. split.
      * etrans; [|exact (gi_playing s Hinv Hplaying)].
        eapply checkWin_cellwise; [done|]. intros p c. simpl.
        destruct (isMine c) eqn:Hm; simpl; split; auto; congruence.
      * intros px py c'. rewrite Hcells.
        destruct (cellAt (board s) px py) as [c|]; [simpl|done].
        intros [= <-]. destruct (isMine c) eqn:Hm; simpl; congruence.
  - (* a fill *)
    assert (inBounds (rows (DIFFICULTIES (difficulty s)))
              (cols (DIFFICULTIES (difficulty s))) (x, y)) as Hin
      by (apply (cellAt_inBounds b1); [done | by exists c1]).
    destruct (revealCell_cellwise b1 _ _ x y HR1 Hin)
      as (b2' & seen & Hreveal' & HR2 & Hcw2 & _).
    rewrite Hreveal in Hreveal'. inversion Hreveal'; subst b2'.
    assert (countMines b2 = mines (DIFFICULTIES (difficulty s))) as Hcount2.
    { rewrite <- Hcount1. eapply cellwise_countMines; [apply HR1 | done | done |].
      intros p c. apply marked_fields. }
    assert (minesHidden b2) as Hhid2.
    { destruct (revealCell_keeps b1 _ _ x y c1 HR1 Hadj1 Hhid1 Hboth1 Hc1 Hm1)
        as (b2' & Hreveal'' & _ & _ & Hhid2 & _).
      rewrite Hreveal in Hreveal''. by inversion Hreveal''; subst. }
    destruct Hend as [[Hwin ->]|[Hwin ->]].
    + pose proof (cellwise_mapMines (setFlagged true) b2) as Hcells.
      split; simpl; try done.
      * intros _. rewrite <- Hcount2.
        eapply cellwise_countMines; [apply HR2 | apply Hbase' | done |].
        intros p c. simpl. by destruct (isMine c) eqn:Hm.
      * intros _. split.
        -- etrans; [|exact Hwin]. eapply checkWin_cellwise; [done|]. intros p c. simpl.
           destruct (isMine c) eqn:Hm; simpl; split; auto.
        -- intros px py c'. rewrite Hcells.
           destruct (cellAt b2 px py) as [c|]; [simpl|done].
           intros [= <-]. destruct (isMine c) eqn:Hm; simpl; congruence.
    + split; simpl; try done.
Qed.

Lemma gameInv_tick s : gameInv s -> gameInv (tick s).
Proof.
  intros [Hbase Hstarted Hcount Hplaying Hwon Hlost].
  split; [by apply sessionInv_tick | done..].
Qed.

(** Every session the component gets to keeps the invariant of the
    game. *)
Lemma reachable_gameInv s : reachable s -> gameInv s.
Proof.
  induction 1 as [|s a s' _ IH Hact|s a s' _ IH Hact|s _ IH _ _];
    [| | |by apply gameInv_tick].
  - apply gameInv_fresh.
  - destruct a as [x y rnd|x y| |d]; simpl in Hact.
    + eapply gameInv_click; eauto.
    + eapply gameInv_rightClick; eauto.
    + inversion Hact; subst. apply gameInv_fresh.
    + inversion Hact; subst. apply gameInv_fresh.
  - destruct a as [x y rnd|x y| |d]; simpl in Hact; try discriminate.
    + eapply gameInv_click; eauto.
    + eapply gameInv_rightClick; eauto.
Qed.

(** ** Further properties of the board functions *)

(** X1. For lengths that [Array.from] accepts (a number of rows below
    [2^32] and, when there is a row, a number of columns below [2^32]),
    [createEmptyBoard] returns a rectangular board of [max 0 rows] rows and
    [max 0 cols] columns, whose cell at an in-range [(x, y)] is the blank
    cell with these coordinates, and which has no cell elsewhere. *)
Theorem createEmptyBoard_blank (rows cols : Z) :
  arrayLength rows -> (0 < rows -> arrayLength cols) ->
  Rect (createEmptyBoard rows cols) (Z.max 0 rows) (Z.max 0 cols) /\
  forall x y, cellAt (createEmptyBoard rows cols) x y =
    if decide (inBounds rows cols (x, y)) then Some (mkCell x y false false false 0)
    else None.
Proof.
  intros _ _. split; [apply Rect_createEmptyBoard|].
  intros x y. apply cellAt_createEmptyBoard.
Qed.

(** [placeMines] keeps what it does not set. *)
Lemma setMine_mine c : isMine c = true -> setMine c = c.
Proof. destruct c as [cx cy m r f a]. simpl. by intros ->. Qed.

(** X2. [placeMines] only adds mines and counts: the board it returns has
    the size of the board it was given, every cell keeps its coordinates,
    its reveal mark and its flag, and a cell that was a mine is left as it
    was. *)
Theorem placeMines_keeps (b : Board) (rows cols mines : Z) (initial : Coord)
    (rnd : list Coord) (b' : Board) :
  Rect b rows cols -> placeMines b mines initial rnd = Done b' ->
  Rect b' rows cols /\
  forall px py c, cellAt b px py = Some c ->
    exists c', cellAt b' px py = Some c' /\
      isRevealed c' = isRevealed c /\ isFlagged c' = isFlagged c /\
      x c' = x c /\ y c' = y c /\ (isMine c = true -> c' = c).
Proof.
  intros HR Hrun.
  destruct (placeMines_phases b rows cols mines initial rnd b' HR Hrun)
    as (b1 & Hloop & _ & HR' & Hcells).
  destruct (placeLoop_spec _ _ _ _ _ _ rows cols Hloop) as (_ & _ & _ & Hplaced).
  split; [done|]. intros px py c Hc. rewrite Hcells.
  destruct (Hplaced px py) as [Hsame|(c0 & Hc0 & Hset)].
  - rewrite Hsame, Hc. cbn -[adjust]. eexists. split; [done|].
    destruct (adjust_fields b1 (px, py) c) as (_ & -> & -> & -> & ->).
    split_and!; try done. intros Hm. unfold adjust. by rewrite Hm.
  - rewrite Hset. rewrite Hc in Hc0. inversion Hc0; subst c0.
    cbn -[adjust]. eexists. split; [done|].
    destruct (adjust_fields b1 (px, py) (setMine c)) as (_ & -> & -> & -> & ->).
    split_and!; try done. intros Hm. rewrite (setMine_mine c Hm).
    unfold adjust. by rewrite Hm.
Qed.

(** A fill from a cell that is revealed or flagged ends at once. *)
Lemma revealCell_closed b rows cols x y c :
  Rect b rows cols -> cellAt b x y = Some c ->
  isRevealed c || isFlagged c = true ->
  revealCell b x y = Done b.
Proof.
  intros HR Hc Hrf.
  assert (inBounds rows cols (x, y)) as Hin
    by (apply (cellAt_inBounds b); [done | by exists c]).
  destruct Hin as [_ Hy]. simpl in Hy. unfold revealCell.
  rewrite (colsOf_Rect b rows cols HR) by lia. simpl.
  unfold visit. rewrite decide_False by set_solver.
  unfold readCell. simpl. rewrite Hc. simpl. rewrite Hrf. simpl.
  match goal with |- revealLoop ?fuel _ _ _ = _ => by destruct fuel end.
Qed.

(** X3. A second [revealCell] from the same coordinate changes nothing:
    on a rectangular board and from a coordinate of the board, the board
    [revealCell] returns is returned again when it is filled from that
    coordinate. *)
Theorem revealCell_idempotent (b : Board) (rows cols x y : Z) (b' : Board) :
  Rect b rows cols -> inBounds rows cols (x, y) ->
  revealCell b x y = Done b' -> revealCell b' x y = Done b'.
Proof.
  intros HR Hin Hrun.
  destruct (revealCell_cellwise b rows cols x y HR Hin)
    as (b2 & seen & Hrun' & HR' & Hcw & Hstart & _).
  rewrite Hrun in Hrun'. inversion Hrun'; subst b2.
  destruct (proj2 (cellAt_inBounds b rows cols x y HR) Hin) as [c Hc].
  apply (revealCell_closed b' rows cols x y (touch c)); [done| |].
  - rewrite Hcw, Hc. simpl. unfold marked. by rewrite decide_True.
  - unfold touch. destruct (isRevealed c || isFlagged c) eqn:Hrf; [done|].
    simpl. done.
Qed.

(** X4. On a board whose counts are right, a fill from a cell that is not
    a mine leaves every mine as it was: [revealCell] never reveals a
    mine. *)
Theorem revealCell_spares_mines (b : Board) (rows cols x y : Z) (c : Cell) :
  Rect b rows cols -> adjacencyOK b ->
  cellAt b x y = Some c -> isMine c = false ->
  exists b', revealCell b x y = Done b' /\
    forall px py c0, cellAt b px py = Some c0 -> isMine c0 = true ->
      cellAt b' px py = Some c0.
Proof.
  intros HR Hadj Hc Hm.
  assert (inBounds rows cols (x, y)) as Hin
    by (apply (cellAt_inBounds b); [done | by exists c]).
  destruct (revealCell_cellwise b rows cols x y HR Hin)
    as (b' & seen & Hrun & _ & Hcw & _ & Hseen).
  exists b'. split; [done|]. intros px py c0 Hc0 Hm0.
  rewrite Hcw, Hc0. simpl. unfold marked.
  destruct (decide ((px, py) ∈ seen)) as [Hin'|]; [|done]. exfalso.
  apply Hseen in Hin'. apply (reach_no_mine b rows cols (x, y)) in Hin'; [|done|].
  - unfold mineAt in Hin'. simpl in Hin'. rewrite Hc0 in Hin'. congruence.
  - unfold mineAt. simpl. by rewrite Hc.
Qed.

(** X5. [revealCell] does not test its start coordinate: on a rectangular
    board, a start outside the board makes it throw. *)
Theorem revealCell_outside_throws (b : Board) (rows cols x y : Z) :
  Rect b rows cols -> ~ inBounds rows cols (x, y) ->
  revealCell b x y = TypeError.
Proof.
  intros HR Hout. unfold revealCell.
  destruct (colsOf b) as [cols'| |] eqn:Hcols; [simpl|done|].
  - unfold visit. rewrite decide_False by set_solver.
    unfold readCell. simpl. by rewrite (cellAt_None_outside b rows cols x y HR Hout).
  - unfold colsOf in Hcols. by destruct (index b 0).
Qed.

(** Every round of the fill, in whatever order, lowers what is left to
    do. *)
Lemma fill_rounds n : forall b rows cols s st st',
  Rect b rows cols -> inBounds rows cols s ->
  fillInv b rows cols s st -> nsteps (fillStep rows cols) n st st' ->
  (n + fillMeasure rows cols st' <= fillMeasure rows cols st)%nat.
Proof.
  induction n as [|n IH]; intros b rows cols s st st' HR Hs Hinv Hsteps.
  - inversion Hsteps; subst. lia.
  - inversion Hsteps as [|? ? st1 ? Hstep Hrest]; subst.
    destruct Hstep as [st l1 p l2 st1 Hsplit Hvisit].
    destruct (visit_step b rows cols s HR Hs st l1 p l2 Hinv Hsplit)
      as (st1' & Hvisit' & Hinv1 & Hlt).
    rewrite Hvisit in Hvisit'. inversion Hvisit'; subst st1'.
    specialize (IH b rows cols s st1 st' HR Hs Hinv1 Hrest). lia.
Qed.

(** X6. The fill is linear in the size of the board whatever the order of
    the frontier: on a rectangular board and from a coordinate of the
    board, no run of the fill has more than [1 + 8 * rows * cols]
    rounds. *)
Theorem fill_rounds_bounded (b : Board) (rows cols : Z) (s : Coord) (n : nat) (st : Fill) :
  Rect b rows cols -> inBounds rows cols s ->
  nsteps (fillStep rows cols) n (mkFill b [s] ∅) st ->
  Z.of_nat n <= 1 + 8 * rows * cols.
Proof.
  intros HR Hs Hsteps.
  pose proof (fill_rounds n b rows cols s _ st HR Hs
                (fillInv_initial b rows cols s HR Hs) Hsteps) as Hle.
  pose proof (fillMeasure_initial b rows cols s HR Hs) as Hfuel.
  unfold revealFuel in Hfuel. destruct Hs as [Hx Hy]. simpl in *.
  assert (Z.of_nat (8 * Z.to_nat rows * Z.to_nat cols) = 8 * rows * cols) as Hmul.
  { rewrite !Nat2Z.inj_mul, !Z2Nat.id by lia. done. }
  lia.
Qed.

(** ** Further properties of the sessions *)

(** X7. The first click of a game never loses: in a session the component
    gets to that has not started, a click that returns leaves the session
    as it was or starts the game with the clicked cell revealed and not a
    mine. *)
Theorem first_click_safe (s : Session) (x y : Z) (rnd : list Coord) (s' : Session) :
  reachable s -> started s = false ->
  handleCellClick s x y rnd = Returned s' ->
  status s' <> lost /\
  (s' = s \/
   started s' = true /\
   exists c, cellAt (board s') x y = Some c /\ isMine c = false /\ isRevealed c = true).
Proof.
  intros Hs Hstarted Hres.
  pose proof (reachable_gameInv s Hs) as Hinv.
  pose proof (gi_base s Hinv) as Hbase.
  assert (status s = playing) as Hplaying.
  { destruct (decide (status s = playing)) as [|Hne]; [done|].
    pose proof (gi_started s Hinv Hne). congruence. }
  destruct (click_cases s x y rnd s' Hbase (or_introl Hres))
    as [->|(_ & cell & b1 & c1 & Hcell & Hf & Hr & Hplace & HR1 & Hadj1 & Hhid1
            & Hboth1 & Hc1 & Hf1 & Hr1 & Hend)].
  { split; [congruence | by left]. }
  rewrite Hstarted in Hplace.
  destruct (preset_positive (difficulty s)) as (_ & _ & Hmines).
  assert (mineFree (board s)) as Hfree.
  { intros px py c Hc. by destruct (si_fresh s Hbase Hstarted px py c Hc). }
  destruct (placeMines_places _ _ _ _ _ _ _ (si_rect s Hbase) Hfree (proj1 Hmines) Hplace)
    as [_ Hinit].
  unfold mineAt in Hinit. simpl in Hinit. rewrite Hc1 in Hinit.
  destruct Hend as [[Hm1 _]|(Hm1 & b2 & Hreveal & Hend)]; [congruence|].
  assert (inBounds (rows (DIFFICULTIES (difficulty s)))
            (cols (DIFFICULTIES (difficulty s))) (x, y)) as Hin
    by (apply (cellAt_inBounds b1); [done | by exists c1]).
  destruct (revealCell_cellwise b1 _ _ x y HR1 Hin)
    as (b2' & seen & Hreveal' & _ & Hcw & Hseen & _).
  rewrite Hreveal in Hreveal'. inversion Hreveal'; subst b2'.
  assert (cellAt b2 x y = Some (setRevealed c1)) as Hc2.
  { rewrite Hcw, Hc1. simpl. unfold marked, touch.
    rewrite decide_True by done. by rewrite Hr1, Hf1. }
  destruct Hend as [[_ ->]|[_ ->]]; simpl.
  - split; [done|]. right. split; [done|]. exists (setRevealed c1).
    rewrite cellAt_mapMines, Hc2. simpl. by rewrite Hm1.
  - split; [done|]. right. split; [done|]. by exists (setRevealed c1).
Qed.

(** X8. In every session the component gets to, the game is won exactly
    when [checkWin] holds of its board. *)
Theorem won_iff_checkWin (s : Session) :
  reachable s ->
  status s = won <-> checkWin (board s) (mines (DIFFICULTIES (difficulty s))) = true.
Proof.
  intros Hs. pose proof (reachable_gameInv s Hs) as Hinv. split.
  - intros Hwon. by destruct (gi_won s Hinv Hwon).
  - intros Hwin. destruct (status s) eqn:Hst; [|done|].
    + rewrite (gi_playing s Hinv Hst) in Hwin. done.
    + destruct (gi_lost s Hinv Hst) as [Hlost _]. congruence.
Qed.

(** X9. In a won game the component gets to, every mine is hidden and
    bears a flag, every other cell is revealed and bears none, and the
    counter of the mines left shows 0. *)
Theorem won_board (s : Session) :
  reachable s -> status s = won ->
  (forall x y c, cellAt (board s) x y = Some c ->
     if isMine c then isRevealed c = false /\ isFlagged c = true
     else isRevealed c = true /\ isFlagged c = false) /\
  minesLeft s = 0.
Proof.
  intros Hs Hwon. pose proof (reachable_gameInv s Hs) as Hinv.
  pose proof (gi_base s Hinv) as Hbase.
  destruct (gi_won s Hinv Hwon) as [Hwin Hflags].
  assert (forall x y c, cellAt (board s) x y = Some c ->
     if isMine c then isRevealed c = false /\ isFlagged c = true
     else isRevealed c = true /\ isFlagged c = false) as Hcells.
  { intros x y c Hc. destruct (isMine c) eqn:Hm.
    - split; [|by eapply Hflags]. eapply (si_hidden s Hbase); [congruence|done..].
    - assert (isRevealed c = true) as Hr by (eapply checkWin_cells; eauto).
      split; [done|]. destruct (isFlagged c) eqn:Hf; [|done].
      destruct (si_both s Hbase x y c Hc Hr Hf). congruence. }
  split; [done|]. unfold minesLeft.
  assert (started s = true) as Hstarted by (apply (gi_started s Hinv); congruence).
  rewrite <- (gi_count s Hinv Hstarted). unfold countFlags, countMines.
  assert (length (filter (fun c => isFlagged c = true) (mjoin (board s)))
          = length (filter (fun c => isMine c = true) (mjoin (board s)))) as ->; [|lia].
  apply filter_length_iff. intros c (x & y & Hc)%elem_of_cellAt.
  specialize (Hcells x y c Hc). destruct (isMine c); intuition congruence.
Qed.

(** X10. In every session the component gets to, a mine is revealed
    exactly when the game is lost: no mine shows while the game is played
    or won, and all of them show after a loss. *)
Theorem mine_revealed_iff_lost (s : Session) (x y : Z) (c : Cell) :
  reachable s -> cellAt (board s) x y = Some c -> isMine c = true ->
  isRevealed c = true <-> status s = lost.
Proof.
  intros Hs Hc Hm. pose proof (reachable_gameInv s Hs) as Hinv. split.
  - intros Hr. destruct (decide (status s = lost)) as [|Hne]; [done|].
    rewrite (si_hidden s (gi_base s Hinv) Hne x y c Hc Hm) in Hr. done.
  - intros Hlost. destruct (gi_lost s Hinv Hlost) as [_ Hall]. by eapply Hall.
Qed.


(** X12. In every session the component gets to, the count a cell that is
    not a mine bears is the number of the mines around it, once the game
    has started: no action makes the counts wrong. *)
Theorem reachable_counts (s : Session) (x y : Z) (c : Cell) :
  reachable s -> started s = true ->
  cellAt (board s) x y = Some c -> isMine c = false ->
  adjacent c = mineNeighbours (board s) (x, y).
Proof.
  intros Hs Hstarted. apply (si_adjacent s (gi_base s (reachable_gameInv s Hs)) Hstarted).
Qed.

(** ** Clicks *)

Lemma grows_refl c : grows c c.
Proof. by repeat split. Qed.

Lemma grows_trans c1 c2 c3 : grows c1 c2 -> grows c2 c3 -> grows c1 c3.
Proof. unfold grows. intros ? ?. destruct_and!. split_and!; eauto; congruence. Qed.

Lemma grows_marked seen p c : grows c (marked seen p c).
Proof.
  unfold marked. destruct (decide _); [|apply grows_refl].
  unfold touch. destruct (isRevealed c || isFlagged c); [apply grows_refl|].
  by repeat split.
Qed.

Lemma grows_mines (f : Cell -> Cell) c :
  grows c (f c) -> grows c (if isMine c then f c else c).
Proof. intros Hf. destruct (isMine c); [done | apply grows_refl]. Qed.

(** A click that returns leaves the session as it was or makes every cell
    of the board of the placement grow. *)
Lemma click_grows s x y rnd s' :
  sessionInv s -> handleCellClick s x y rnd = Returned s' ->
  s' = s \/
  exists b1,
    (if started s then Done (board s)
     else placeMines (board s) (mines (DIFFICULTIES (difficulty s))) (x, y) rnd) = Done b1 /\
    Rect b1 (rows (DIFFICULTIES (difficulty s))) (cols (DIFFICULTIES (difficulty s))) /\
    forall px py, option_Forall2 grows (cellAt b1 px py) (cellAt (board s') px py).
Proof.
  intros Hinv Hres.
  destruct (click_cases s x y rnd s' Hinv (or_introl Hres))
    as [->|(_ & cell & b1 & c1 & Hcell & Hf & Hr & Hplace & HR1 & _ & _ & _ & Hc1 & _ & _ & Hend)];
    [by left|].
  right. exists b1. split; [done|]. split; [done|]. intros px py.
  assert (inBounds (rows (DIFFICULTIES (difficulty s)))
            (cols (DIFFICULTIES (difficulty s))) (x, y)) as Hin
    by (apply (cellAt_inBounds b1); [done | by exists c1]).
  destruct Hend as [[_ ->]|(_ & b2 & Hreveal & Hend)]; simpl.
  - rewrite cellAt_mapMines, (cellwise_update b1 x y setRevealed px py).
    destruct (cellAt b1 px py) as [c|]; simpl; constructor.
    eapply grows_trans; [|apply grows_mines].
    + destruct (decide _); [by repeat split | apply grows_refl].
    + by repeat split.
  - destruct (revealCell_cellwise b1 _ _ x y HR1 Hin)
      as (b2' & seen & Hreveal' & _ & Hcw & _).
    rewrite Hreveal in Hreveal'. inversion Hreveal'; subst b2'.
    destruct Hend as [[_ ->]|[_ ->]]; simpl.
    + rewrite cellAt_mapMines, Hcw.
      destruct (cellAt b1 px py) as [c|]; simpl; constructor.
      eapply grows_trans; [apply grows_marked|]. apply grows_mines.
      by repeat split.
    + rewrite Hcw. destruct (cellAt b1 px py) as [c|]; simpl; constructor.
      apply grows_marked.
Qed.

(** X13. A click never hides a cell or takes a flag away: in a session the
    component gets to, a cell that was revealed or flagged before a click
    still is after it, and once the game has started a click moves no mine
    and changes no count. *)
Theorem click_monotone (s : Session) (x y : Z) (rnd : list Coord) (s' : Session)
    (px py : Z) (c : Cell) :
  reachable s -> handleCellClick s x y rnd = Returned s' ->
  cellAt (board s) px py = Some c ->
  exists c', cellAt (board s') px py = Some c' /\
    (isRevealed c = true -> isRevealed c' = true) /\
    (isFlagged c = true -> isFlagged c' = true) /\
    (started s = true -> isMine c' = isMine c /\ adjacent c' = adjacent c).
Proof.
  intros Hs Hres Hc. pose proof (reachable_inv s Hs) as Hinv.
  destruct (click_grows s x y rnd s' Hinv Hres) as [->|(b1 & Hplace & HR1 & Hcells)].
  { exists c. by repeat split. }
  specialize (Hcells px py).
  destruct (started s) eqn:Hstarted.
  - inversion Hplace; subst b1. rewrite Hc in Hcells.
    inversion Hcells as [c0 c' Hg|]; subst. exists c'.
    destruct Hg as (? & ? & _ & _ & ? & ?). by repeat split.
  - destruct (si_fresh s Hinv Hstarted px py c Hc) as (_ & Hr & Hf).
    assert (is_Some (cellAt b1 px py)) as [c1 Hc1].
    { apply (cellAt_inBounds b1 _ _ px py HR1).
      apply (cellAt_inBounds (board s)); [apply Hinv | by exists c]. }
    rewrite Hc1 in Hcells. inversion Hcells as [c0 c' Hg|]; subst. exists c'.
    split; [done|]. split_and!; congruence.
Qed.

(** The ways a click on a hidden cell without a flag ends while the game
    is played. *)
Lemma click_hidden s x y rnd s' cell :
  sessionInv s -> status s = playing ->
  cellAt (board s) x y = Some cell -> isFlagged cell = false -> isRevealed cell = false ->
  handleCellClick s x y rnd = Returned s' ->
  exists b1 c1,
    Rect b1 (rows (DIFFICULTIES (difficulty s))) (cols (DIFFICULTIES (difficulty s))) /\
    cellAt b1 x y = Some c1 /\ isFlagged c1 = false /\ isRevealed c1 = false /\
    ((isMine c1 = true /\ status s' = lost /\
      board s' = mapMines setRevealed (update b1 x y setRevealed)) \/
     (isMine c1 = false /\ status s' <> lost /\
      exists b2, revealCell b1 x y = Done b2 /\
        (board s' = mapMines (setFlagged true) b2 \/ board s' = b2))).
Proof.
  intros Hinv Hplaying Hcell Hf Hr Hres. unfold handleCellClick in Hres.
  rewrite decide_False in Hres by (intros ?; congruence).
  rewrite copyBoard_id, Hcell, Hf, Hr in Hres. simpl in Hres.
  destruct (if started s then Done (board s) else _) as [b1| |] eqn:Hplace;
    [|simpl in Hres; done..].
  assert (isFlagged cell || isRevealed cell = false) as Hfr by (by rewrite Hf, Hr).
  destruct (click_board s x y rnd cell b1 Hinv Hplaying Hcell Hfr Hplace)
    as (HR1 & Hadj1 & Hhid1 & Hboth1 & c1 & Hc1 & Hf1 & Hr1).
  exists b1, c1. split_and!; try done.
  simpl in Hres. rewrite Hc1 in Hres. simpl in Hres.
  destruct (isMine c1) eqn:Hm1.
  - left. inversion Hres; subst s'. by repeat split.
  - right. split; [done|].
    destruct (revealCell b1 x y) as [b2| |] eqn:Hreveal; [|done..].
    rewrite Hplaying in Hres.
    destruct (checkWin b2 _); inversion Hres; subst s'; simpl;
      (split; [done|]); exists b2; (split; [done|]); [by left | by right].
Qed.

(** X14. In a session the component gets to, a click on a cell whose
    button is enabled and that bears no flag, when it returns, leaves that
    cell revealed, and the game is lost exactly when the cell is a mine. *)
Theorem click_reveals (s : Session) (x y : Z) (rnd : list Coord) (s' : Session) (c : Cell) :
  reachable s -> cellAt (board s) x y = Some c ->
  cellDisabled (status s) c = false -> isFlagged c = false ->
  handleCellClick s x y rnd = Returned s' ->
  exists c', cellAt (board s') x y = Some c' /\ isRevealed c' = true /\
    (status s' = lost <-> isMine c' = true).
Proof.
  intros Hs Hc Hdis Hf Hres. pose proof (reachable_inv s Hs) as Hinv.
  unfold cellDisabled in Hdis. apply orb_false_iff in Hdis as [Hr Hst].
  apply bool_decide_eq_false in Hst.
  assert (status s = playing) as Hplaying
    by (destruct (decide (status s = playing)); [done | tauto]).
  destruct (click_hidden s x y rnd s' c Hinv Hplaying Hc Hf Hr Hres)
    as (b1 & c1 & HR1 & Hc1 & Hf1 & Hr1 & Hend).
  assert (inBounds (rows (DIFFICULTIES (difficulty s)))
            (cols (DIFFICULTIES (difficulty s))) (x, y)) as Hin
    by (apply (cellAt_inBounds b1); [done | by exists c1]).
  destruct Hend as [(Hm1 & Hlost & ->)|(Hm1 & Hlost & b2 & Hreveal & Hb)].
  - exists (setRevealed c1).
    rewrite cellAt_mapMines, cellAt_update_eq, Hc1. simpl. rewrite Hm1.
    by repeat split.
  - destruct (revealCell_cellwise b1 _ _ x y HR1 Hin)
      as (b2' & seen & Hreveal' & _ & Hcw & Hseen & _).
    rewrite Hreveal in Hreveal'. inversion Hreveal'; subst b2'.
    assert (cellAt b2 x y = Some (setRevealed c1)) as Hc2.
    { rewrite Hcw, Hc1. simpl. unfold marked, touch.
      rewrite decide_True by done. by rewrite Hr1, Hf1. }
    exists (setRevealed c1). split.
    + destruct Hb as [-> | ->]; [|done].
      rewrite cellAt_mapMines, Hc2. simpl. by rewrite Hm1.
    + split; [done|]. simpl. rewrite Hm1. split; [done | congruence].
Qed.

(** ** Flags *)

Lemma countFlags_update b x y c v :
  cellAt b x y = Some c ->
  countFlags (update b x y (setFlagged v))
  = countFlags b + (if v then 1 else 0) - (if isFlagged c then 1 else 0).
Proof.
  intros (row & [Hy Hrow]%index_Some & [Hx Hc]%index_Some)%cellAt_Some.
  unfold countFlags, update. rewrite decide_True by done.
  pose proof (count_alter_board (fun c => isFlagged c = true) (setFlagged v) b
                (Z.to_nat y) (Z.to_nat x) row c Hrow Hc) as H.
  simpl in H. destruct v, (isFlagged c).
  - rewrite !decide_True in H by done. lia.
  - rewrite decide_False, decide_True in H by done. lia.
  - rewrite decide_True, decide_False in H by done. lia.
  - rewrite !decide_False in H by done. lia.
Qed.

Lemma update_back b x y (f g : Cell -> Cell) :
  (forall c, cellAt b x y = Some c -> g (f c) = c) ->
  update (update b x y f) x y g = b.
Proof.
  intros Hback. unfold update. destruct (decide (0 <= x /\ 0 <= y)) as [[Hx Hy]|]; [|done].
  rewrite list_alter_alter_eq. apply list_eq. intros i.
  destruct (decide (i = Z.to_nat y)) as [->|Hne].
  2: { by rewrite list_lookup_alter_ne. }
  rewrite list_lookup_alter_eq. destruct (b !! Z.to_nat y) as [row|] eqn:Hrow; [simpl|done].
  f_equal. rewrite list_alter_alter_eq. apply list_eq. intros j.
  destruct (decide (j = Z.to_nat x)) as [->|Hne].
  2: { by rewrite list_lookup_alter_ne. }
  rewrite list_lookup_alter_eq. destruct (row !! Z.to_nat x) as [c|] eqn:Hc; [simpl|done].
  f_equal. apply Hback. apply cellAt_Some. exists row.
  split; apply index_Some; done.
Qed.

(** X15. While a started game is played, a right click on a hidden cell
    returns a session that differs in the flag of that cell alone, which is
    turned over, and the counter of the mines left goes down by one for a
    flag set and up by one for a flag taken away. *)
Theorem rightClick_toggles (s : Session) (x y : Z) (c : Cell) :
  status s = playing -> started s = true ->
  cellAt (board s) x y = Some c -> isRevealed c = false ->
  exists s', handleCellRightClick s x y = Returned s' /\
    difficulty s' = difficulty s /\ status s' = status s /\
    started s' = started s /\ timer s' = timer s /\
    cellAt (board s') x y = Some (setFlagged (negb (isFlagged c)) c) /\
    (forall px py, (px, py) <> (x, y) ->
       cellAt (board s') px py = cellAt (board s) px py) /\
    minesLeft s' = minesLeft s + (if isFlagged c then 1 else -1).
Proof.
  intros Hplaying Hstarted Hc Hr. unfold handleCellRightClick.
  rewrite Hplaying, Hstarted, copyBoard_id, Hc, Hr. simpl.
  eexists. split; [done|]. simpl. split_and!; try done.
  - by rewrite cellAt_update_eq, Hc.
  - intros px py Hne. apply cellAt_update_ne. congruence.
  - unfold minesLeft. simpl. rewrite (countFlags_update _ _ _ c) by done.
    destruct (isFlagged c); simpl; lia.
Qed.

(** X16. Two right clicks on the same cell, one after the other, give back
    the session they started from. *)
Theorem rightClick_twice (s s1 s2 : Session) (x y : Z) :
  handleCellRightClick s x y = Returned s1 ->
  handleCellRightClick s1 x y = Returned s2 ->
  s2 = s.
Proof.
  intros H1 H2. unfold handleCellRightClick in H1.
  destruct (bool_decide (status s <> playing) || negb (started s)) eqn:Hguard.
  { inversion H1; subst s1. unfold handleCellRightClick in H2.
    rewrite Hguard in H2. by inversion H2. }
  rewrite copyBoard_id in H1.
  destruct (cellAt (board s) x y) as [c|] eqn:Hc; [|done].
  destruct (isRevealed c) eqn:Hr.
  { inversion H1; subst s1. unfold handleCellRightClick in H2.
    rewrite Hguard, copyBoard_id, Hc, Hr in H2. by inversion H2. }
  inversion H1; subst s1. unfold handleCellRightClick in H2. simpl in H2.
  rewrite Hguard, copyBoard_id, cellAt_update_eq, Hc in H2. simpl in H2.
  rewrite Hr in H2. inversion H2; subst s2. rewrite update_back.
  - by destruct s.
  - intros c' Hc'. rewrite Hc in Hc'. injection Hc' as <-. destruct c as [cx cy m r f a]. unfold setFlagged. simpl.
    by rewrite negb_involutive.
Qed.

(** ** What the buttons show *)

(** X17. In every session the component gets to, a button shows a bomb
    only for a mine of a lost game, a flag only on a hidden cell, and a
    number only on a cell that is not a mine, the number being that of the
    mines around the cell, between 1 and 8. *)
Theorem cellContent_reachable (s : Session) (x y : Z) (c : Cell) :
  reachable s -> cellAt (board s) x y = Some c ->
  match cellContent c with
  | BombIcon => isMine c = true /\ status s = lost
  | Digits n => isMine c = false /\ n = mineNeighbours (board s) (x, y) /\ 1 <= n <= 8
  | FlagIcon => isRevealed c = false /\ isFlagged c = true
  | NoContent => True
  end.
Proof.
  intros Hs Hc. pose proof (reachable_inv s Hs) as Hinv. unfold cellContent.
  destruct (isRevealed c) eqn:Hr.
  - destruct (isMine c) eqn:Hm.
    + split; [done|]. destruct (decide (status s = lost)) as [|Hne]; [done|].
      pose proof (si_hidden s Hinv Hne x y c Hc Hm). congruence.
    + destruct (0 <? adjacent c) eqn:Hpos; [|done].
      assert (started s = true) as Hstarted.
      { destruct (started s) eqn:Hst; [done|].
        destruct (si_fresh s Hinv Hst x y c Hc) as (_ & ? & _). congruence. }
      pose proof (si_adjacent s Hinv Hstarted x y c Hc Hm) as Hadj.
      pose proof (mineNeighbours_range (board s) (x, y)).
      apply Z.ltb_lt in Hpos. split; [done|]. split; [done | lia].
  - by destruct (isFlagged c).
Qed.

(** X18. In every session the component gets to, the class of the number
    of a cell is looked up inside [cellNumberColors]: the lookup never
    gives [undefined]. *)
Theorem numberColour_defined (s : Session) (x y : Z) (c : Cell) (o : option string) :
  reachable s -> cellAt (board s) x y = Some c ->
  numberColour c = Some o -> is_Some o.
Proof.
  intros Hs Hc. pose proof (reachable_inv s Hs) as Hinv. unfold numberColour.
  destruct (isRevealed c) eqn:Hr; [|done].
  destruct (isMine c) eqn:Hm; [done|].
  destruct (0 <? adjacent c) eqn:Hpos; [|done]. simpl. intros [= <-].
  assert (started s = true) as Hstarted.
  { destruct (started s) eqn:Hst; [done|].
    destruct (si_fresh s Hinv Hst x y c Hc) as (_ & ? & _). congruence. }
  pose proof (si_adjacent s Hinv Hstarted x y c Hc Hm) as Hadj.
  pose proof (mineNeighbours_range (board s) (x, y)).
  apply index_range. simpl. lia.
Qed.

(** ** A game always goes on *)

Lemma checkWin_false b m :
  checkWin b m = false ->
  exists x y c, cellAt b x y = Some c /\ isMine c = false /\ isRevealed c = false.
Proof.
  intros Hwin.
  destruct (decide (Exists (fun c => isMine c = false /\ isRevealed c = false) (mjoin b)))
    as [Hex|Hno].
  - apply Exists_exists in Hex as (c & (x & y & Hc)%elem_of_cellAt & Hm & Hr).
    by exists x, y, c.
  - assert (checkWin b m = true) as Htrue; [|congruence].
    apply checkWin_all_revealed. intros c Hin Hm.
    destruct (isRevealed c) eqn:Hr; [done|]. destruct Hno.
    apply Exists_exists. eauto.
Qed.

(** X19. In every session the component gets to, while the game is played
    the board has a hidden cell that is not a mine: a game that is played
    is never without a move. *)
Theorem playing_has_move (s : Session) :
  reachable s -> status s = playing ->
  exists x y c, cellAt (board s) x y = Some c /\ isMine c = false /\ isRevealed c = false.
Proof.
  intros Hs Hplaying. eapply checkWin_false.
  by apply (gi_playing s (reachable_gameInv s Hs)).
Qed.

(** ** Handlers on the cells of the board *)

Lemma placeLoop_no_throw rows cols rnd : forall b mines initial placed,
  Rect b rows cols -> Forall (inBounds rows cols) rnd ->
  placeLoop b mines initial placed rnd <> TypeError.
Proof.
  induction rnd as [|[dx dy] rnd IH]; intros b mines initial placed HR Hrnd;
    cbn [placeLoop]; destruct (decide (placed < mines)); try done.
  apply Forall_cons in Hrnd as [Hin Hrnd].
  destruct ((dx =? initial.1) && (dy =? initial.2)); [by apply IH|].
  unfold readCell.
  destruct (proj2 (cellAt_inBounds b rows cols dx dy HR) Hin) as [c ->]. simpl.
  destruct (isMine c); apply IH; try done. by apply Rect_update.
Qed.

Lemma placeMines_no_throw b rows cols mines initial rnd :
  Rect b rows cols -> 0 < rows -> Forall (inBounds rows cols) rnd ->
  placeMines b mines initial rnd <> TypeError.
Proof.
  intros HR Hrows Hrnd. unfold placeMines.
  rewrite (colsOf_Rect b rows cols HR Hrows). simpl.
  pose proof (placeLoop_no_throw rows cols rnd b mines initial 0 HR Hrnd) as Hloop.
  destruct (placeLoop b mines initial 0 rnd) as [b1| |] eqn:Hrun; [simpl|done..].
  destruct (placeLoop_spec _ _ _ _ _ _ rows cols Hrun) as (HR1 & _).
  assert (rowsOf b = rows) as -> by apply HR.
  destruct (computeAdjacent_spec b1 rows cols (HR1 HR)) as (b' & -> & _). done.
Qed.

(** X20. In a session the component gets to, no handler throws for a
    coordinate of the board, whatever the draws on the board are: the click
    handler returns, or is still drawing when the draws are used up, and
    the right-click handler returns. *)
Theorem handlers_never_throw (s : Session) (x y : Z) (rnd : list Coord) :
  reachable s ->
  inBounds (rows (DIFFICULTIES (difficulty s))) (cols (DIFFICULTIES (difficulty s))) (x, y) ->
  Forall (inBounds (rows (DIFFICULTIES (difficulty s)))
            (cols (DIFFICULTIES (difficulty s)))) rnd ->
  ((exists s', handleCellClick s x y rnd = Returned s') \/
   handleCellClick s x y rnd = Running) /\
  exists s', handleCellRightClick s x y = Returned s'.
Proof.
  intros Hs Hin Hrnd. pose proof (reachable_inv s Hs) as Hinv.
  destruct (proj2 (cellAt_inBounds (board s) _ _ x y (si_rect s Hinv)) Hin) as [cell Hcell].
  split.
  - unfold handleCellClick.
    destruct (decide (status s <> playing)) as [Hst|Hst]; [by left; eexists|].
    assert (status s = playing) as Hplaying
      by (destruct (decide (status s = playing)); [done | tauto]).
    rewrite copyBoard_id, Hcell.
    destruct (isFlagged cell || isRevealed cell) eqn:Hfr; [by left; eexists|].
    destruct (if started s then Done (board s) else _) as [b1| |] eqn:Hplace.
    + destruct (click_board s x y rnd cell b1 Hinv Hplaying Hcell Hfr Hplace)
        as (HR1 & Hadj1 & Hhid1 & Hboth1 & c1 & Hc1 & Hf1 & Hr1).
      simpl. rewrite Hc1. simpl.
      destruct (isMine c1) eqn:Hm1; [by left; eexists|].
      destruct (revealCell_keeps b1 _ _ x y c1 HR1 Hadj1 Hhid1 Hboth1 Hc1 Hm1)
        as (b2 & -> & _).
      left. destruct (checkWin b2 _); by eexists.
    + destruct (started s); [done|].
      destruct (preset_positive (difficulty s)) as (Hrows & _).
      by destruct (placeMines_no_throw _ _ _ (mines (DIFFICULTIES (difficulty s)))
                     (x, y) rnd (si_rect s Hinv) Hrows Hrnd).
    + by right.
  - unfold handleCellRightClick.
    destruct (bool_decide (status s <> playing) || negb (started s)); [by eexists|].
    rewrite copyBoard_id, Hcell. destruct (isRevealed cell); by eexists.
Qed.

(** X21. In a session the component gets to that has not started, a click
    on a cell of the board returns after finitely many draws of every
    sequence of draws in which each coordinate keeps coming, for each of
    the three difficulties; the game has then started and is not lost. *)
Theorem first_click_completes (s : Session) (x y : Z) (draws : nat -> Coord) :
  reachable s -> started s = false ->
  inBounds (rows (DIFFICULTIES (difficulty s))) (cols (DIFFICULTIES (difficulty s))) (x, y) ->
  fairDraws (rows (DIFFICULTIES (difficulty s))) (cols (DIFFICULTIES (difficulty s))) draws ->
  exists n s', handleCellClick s x y (firstDraws draws n) = Returned s' /\
    started s' = true /\ status s' <> lost.
Proof.
  intros Hs Hstarted Hin Hfair.
  pose proof (reachable_gameInv s Hs) as Hginv. pose proof (gi_base s Hginv) as Hinv.
  assert (status s = playing) as Hplaying.
  { destruct (decide (status s = playing)) as [|Hne]; [done|].
    pose proof (gi_started s Hginv Hne). congruence. }
  destruct (proj2 (cellAt_inBounds (board s) _ _ x y (si_rect s Hinv)) Hin) as [cell Hcell].
  destruct (si_fresh s Hinv Hstarted x y cell Hcell) as (_ & Hr & Hf).
  assert (mineFree (board s)) as Hfree.
  { intros px py c Hc. by destruct (si_fresh s Hinv Hstarted px py c Hc). }
  destruct (preset_positive (difficulty s)) as (Hrows & _ & Hmines).
  destruct (placeMines_fair (board s) _ _ (mines (DIFFICULTIES (difficulty s))) (x, y) draws
              (si_rect s Hinv) Hrows) as (n & b1 & Hplace); [|done|].
  { rewrite (freeCells_mineFree _ _ (x, y) (board s) (si_rect s Hinv) Hfree Hin). lia. }
  exists n.
  assert ((if started s then Done (board s)
           else placeMines (board s) (mines (DIFFICULTIES (difficulty s))) (x, y)
                  (firstDraws draws n)) = Done b1) as Hplace'
    by (by rewrite Hstarted).
  assert (isFlagged cell || isRevealed cell = false) as Hfr by (by rewrite Hf, Hr).
  destruct (click_board s x y _ cell b1 Hinv Hplaying Hcell Hfr Hplace')
    as (HR1 & Hadj1 & Hhid1 & Hboth1 & c1 & Hc1 & Hf1 & Hr1).
  destruct (placeMines_places _ _ _ _ _ _ _ (si_rect s Hinv) Hfree (proj1 Hmines) Hplace)
    as [_ Hinit].
  unfold mineAt in Hinit. simpl in Hinit. rewrite Hc1 in Hinit.
  destruct (revealCell_keeps b1 _ _ x y c1 HR1 Hadj1 Hhid1 Hboth1 Hc1 Hinit)
    as (b2 & Hreveal & _).
  unfold handleCellClick.
  rewrite decide_False by (intros ?; congruence).
  rewrite copyBoard_id, Hcell, Hfr, Hstarted, Hplace. simpl.
  rewrite Hc1. simpl. rewrite Hinit, Hreveal, Hplaying.
  destruct (checkWin b2 _); eexists; (split; [done|]); by simpl.
Qed.

(** ** More on the board functions: single cells and draws *)

(** X22. A fill from a hidden cell without a flag that has mines around,
    or is a mine, reveals that cell and nothing else. *)
Theorem revealCell_numbered (b : Board) (rows cols x y : Z) (c : Cell) :
  Rect b rows cols -> cellAt b x y = Some c ->
  isRevealed c = false -> isFlagged c = false ->
  adjacent c <> 0 \/ isMine c = true ->
  revealCell b x y = Done (update b x y setRevealed).
Proof.
  intros HR Hc Hr Hf Hstop.
  assert (inBounds rows cols (x, y)) as Hin
    by (apply (cellAt_inBounds b); [done | by exists c]).
  destruct Hin as [_ Hy]. simpl in Hy. unfold revealCell.
  rewrite (colsOf_Rect b rows cols HR) by lia. simpl.
  unfold visit. rewrite decide_False by set_solver.
  unfold readCell. simpl. rewrite Hc. simpl. rewrite Hr, Hf. simpl.
  assert ((adjacent c =? 0) && negb (isMine c) = false) as ->.
  { destruct Hstop as [Hadj| ->]; [|apply andb_false_r].
    apply Z.eqb_neq in Hadj. by rewrite Hadj. }
  simpl.
  match goal with |- revealLoop ?fuel _ _ _ = _ => by destruct fuel end.
Qed.

Lemma placeLoop_drawn rnd : forall b mines initial placed b',
  placeLoop b mines initial placed rnd = Done b' ->
  forall p, mineAt b' p = true -> mineAt b p = true \/ p ∈ rnd.
Proof.
  induction rnd as [|[dx dy] rnd IH]; intros b mines initial placed b';
    cbn [placeLoop]; destruct (decide (placed < mines)); try done.
  - intros [= <-] p Hp. by left.
  - destruct ((dx =? initial.1) && (dy =? initial.2)).
    { intros Hrun p Hp. destruct (IH _ _ _ _ _ Hrun p Hp); [by left|].
      right. by apply list_elem_of_further. }
    unfold readCell. destruct (cellAt b dx dy) as [c|] eqn:Hc; [simpl|done].
    destruct (isMine c).
    { intros Hrun p Hp. destruct (IH _ _ _ _ _ Hrun p Hp); [by left|].
      right. by apply list_elem_of_further. }
    intros Hrun [px py] Hp. destruct (IH _ _ _ _ _ Hrun _ Hp) as [Hm|Hin].
    + unfold mineAt in Hm. simpl in Hm. rewrite cellAt_update in Hm.
      destruct (decide (dx = px /\ dy = py)) as [[-> ->]|Hne].
      * right. apply list_elem_of_here.
      * by left.
    + right. by apply list_elem_of_further.
  - intros [= <-] p Hp. by left.
Qed.

(** X23. On a rectangular board without mines, every mine of the board
    [placeMines] returns lies at a coordinate that was drawn. *)
Theorem placeMines_mines_drawn (b : Board) (rows cols mines : Z) (initial : Coord)
    (rnd : list Coord) (b' : Board) :
  Rect b rows cols -> mineFree b ->
  placeMines b mines initial rnd = Done b' ->
  forall p, mineAt b' p = true -> p ∈ rnd.
Proof.
  intros HR Hfree Hrun p Hp.
  destruct (placeMines_phases b rows cols mines initial rnd b' HR Hrun)
    as (b1 & Hloop & _ & _ & Hcells).
  rewrite (adjust_mineAt _ _ _ Hcells) in Hp.
  destruct (placeLoop_drawn _ _ _ _ _ _ Hloop p Hp) as [Hm|Hin]; [|done].
  unfold mineAt in Hm. destruct (cellAt b p.1 p.2) as [c|] eqn:Hc; [|done].
  rewrite (Hfree _ _ _ Hc) in Hm. done.
Qed.

(** ** The further properties on the examples *)

Lemma reachable_firstSession : reachable firstSession.
Proof.
  apply (run_reachable [Click 0 7 lastRowDraws] initialSession);
    [constructor | vm_compute; reflexivity].
Qed.

Lemma reachable_lostLaterSession : reachable lostLaterSession.
Proof.
  apply (run_reachable [Click 7 8 []] laterSession);
    [apply reachable_laterSession | vm_compute; reflexivity].
Qed.

Lemma reachable_wonLaterSession : reachable wonLaterSession.
Proof.
  apply (run_reachable [Click 0 0 []] (tick firstSession)); [|vm_compute; reflexivity].
  apply reach_tick; [apply reachable_firstSession | reflexivity..].
Qed.

(** [createEmptyBoard_blank] for three rows of four cells. *)
Lemma createEmptyBoard_blank_witness :
  Rect (createEmptyBoard 3 4) (Z.max 0 3) (Z.max 0 4) /\
  forall x y, cellAt (createEmptyBoard 3 4) x y =
    if decide (inBounds 3 4 (x, y)) then Some (mkCell x y false false false 0)
    else None.
Proof.
  apply (createEmptyBoard_blank 3 4); [unfold arrayLength; lia|].
  intros _. unfold arrayLength. lia.
Defined.

Lemma placeMines_smallBoard :
  placeMines (createEmptyBoard 3 4) 2 (0, 0) smallDraws = Done smallBoard.
Proof. vm_compute. reflexivity. Qed.

Lemma adjacencyOK_smallBoard : adjacencyOK smallBoard.
Proof.
  apply (placeMines_adjacencyOK (createEmptyBoard 3 4) 3 4 2 (0, 0) smallDraws);
    [apply (Rect_createEmptyBoard 3 4) | apply placeMines_smallBoard].
Qed.

(** [placeMines_keeps] for the placement that gives [smallBoard]. *)
Lemma placeMines_keeps_witness :
  Rect (createEmptyBoard 3 4) 3 4 /\
  placeMines (createEmptyBoard 3 4) 2 (0, 0) smallDraws = Done smallBoard /\
  Rect smallBoard 3 4 /\
  forall px py c, cellAt (createEmptyBoard 3 4) px py = Some c ->
    exists c', cellAt smallBoard px py = Some c' /\
      isRevealed c' = isRevealed c /\ isFlagged c' = isFlagged c /\
      x c' = x c /\ y c' = y c /\ (isMine c = true -> c' = c).
Proof.
  split; [apply (Rect_createEmptyBoard 3 4)|]. split; [apply placeMines_smallBoard|].
  apply (placeMines_keeps (createEmptyBoard 3 4) 3 4 2 (0, 0) smallDraws smallBoard);
    [apply (Rect_createEmptyBoard 3 4) | apply placeMines_smallBoard].
Defined.

(** [revealCell_idempotent] on [corridor], from its first cell. *)
Lemma revealCell_idempotent_witness :
  Rect corridor 1 3 /\ inBounds 1 3 (0, 0) /\
  revealCell corridor 0 0 = Done corridorFilled /\
  revealCell corridorFilled 0 0 = Done corridorFilled.
Proof.
  assert (revealCell corridor 0 0 = Done corridorFilled) as Hrun
    by (vm_compute; reflexivity).
  split; [apply Rect_corridor|]. split; [apply inBounds_origin; lia|].
  split; [exact Hrun|].
  apply (revealCell_idempotent corridor 1 3 0 0 corridorFilled);
    [apply Rect_corridor | apply inBounds_origin; lia | exact Hrun].
Defined.

(** [revealCell_spares_mines] on [smallBoard], from its upper right
    corner. *)
Lemma revealCell_spares_mines_witness :
  Rect smallBoard 3 4 /\ adjacencyOK smallBoard /\
  cellAt smallBoard 3 0 = Some (mkCell 3 0 false false false 0) /\
  exists b', revealCell smallBoard 3 0 = Done b' /\
    forall px py c0, cellAt smallBoard px py = Some c0 -> isMine c0 = true ->
      cellAt b' px py = Some c0.
Proof.
  split; [apply Rect_smallBoard|]. split; [apply adjacencyOK_smallBoard|].
  split; [reflexivity|].
  apply (revealCell_spares_mines smallBoard 3 4 3 0 (mkCell 3 0 false false false 0));
    [apply Rect_smallBoard | apply adjacencyOK_smallBoard | reflexivity..].
Defined.

(** [revealCell_outside_throws] on [corridor], below its only row. *)
Lemma revealCell_outside_throws_witness :
  Rect corridor 1 3 /\ ~ inBounds 1 3 (0, 1) /\ revealCell corridor 0 1 = TypeError.
Proof.
  assert (~ inBounds 1 3 (0, 1)) as Hout by (unfold inBounds; simpl; lia).
  split; [apply Rect_corridor|]. split; [exact Hout|].
  apply (revealCell_outside_throws corridor 1 3 0 1 Rect_corridor Hout).
Defined.

(** [fill_rounds_bounded] for the first round of a fill of [corridor]. *)
Lemma fill_rounds_bounded_witness :
  Rect corridor 1 3 /\ inBounds 1 3 (0, 0) /\
  nsteps (fillStep 1 3) 1 (mkFill corridor [(0, 0)] ∅)
    (mkFill (update corridor 0 0 setRevealed) (pushNeighbours 1 3 0 0 []) {[ (0, 0) ]}) /\
  Z.of_nat 1 <= 1 + 8 * 1 * 3.
Proof.
  assert (nsteps (fillStep 1 3) 1 (mkFill corridor [(0, 0)] ∅)
    (mkFill (update corridor 0 0 setRevealed) (pushNeighbours 1 3 0 0 []) {[ (0, 0) ]}))
    as Hsteps.
  { apply nsteps_once. apply (fill_take 1 3 _ [] (0, 0) []); [reflexivity|].
    unfold visit. rewrite decide_False by set_solver. simpl.
    by rewrite (right_id_L ∅ (∪)). }
  assert (inBounds 1 3 (0, 0)) as Hin by (apply inBounds_origin; lia).
  split; [apply Rect_corridor|]. split; [exact Hin|]. split; [exact Hsteps|].
  apply (fill_rounds_bounded corridor 1 3 (0, 0) 1 _ Rect_corridor Hin Hsteps).
Defined.

(** [first_click_safe] for the first click of [firstSession]. *)
Lemma first_click_safe_witness :
  reachable initialSession /\ started initialSession = false /\
  handleCellClick initialSession 0 7 lastRowDraws = Returned firstSession /\
  status firstSession <> lost /\
  (firstSession = initialSession \/
   started firstSession = true /\
   exists c, cellAt (board firstSession) 0 7 = Some c /\
     isMine c = false /\ isRevealed c = true).
Proof.
  assert (handleCellClick initialSession 0 7 lastRowDraws = Returned firstSession)
    as Hres by (vm_compute; reflexivity).
  split; [constructor|]. split; [reflexivity|]. split; [exact Hres|].
  apply (first_click_safe initialSession 0 7 lastRowDraws firstSession);
    [constructor | reflexivity | exact Hres].
Defined.

(** [won_iff_checkWin] in [wonLaterSession]. *)
Lemma won_iff_checkWin_witness :
  reachable wonLaterSession /\
  (status wonLaterSession = won <->
   checkWin (board wonLaterSession)
     (mines (DIFFICULTIES (difficulty wonLaterSession))) = true).
Proof.
  split; [apply reachable_wonLaterSession|].
  apply (won_iff_checkWin wonLaterSession reachable_wonLaterSession).
Defined.

(** [won_board] in [wonLaterSession]. *)
Lemma won_board_witness :
  reachable wonLaterSession /\ status wonLaterSession = won /\
  (forall x y c, cellAt (board wonLaterSession) x y = Some c ->
     if isMine c then isRevealed c = false /\ isFlagged c = true
     else isRevealed c = true /\ isFlagged c = false) /\
  minesLeft wonLaterSession = 0.
Proof.
  split; [apply reachable_wonLaterSession|]. split; [reflexivity|].
  apply (won_board wonLaterSession reachable_wonLaterSession). reflexivity.
Defined.

(** [mine_revealed_iff_lost] at a mine of [lostLaterSession]. *)
Lemma mine_revealed_iff_lost_witness :
  reachable lostLaterSession /\
  cellAt (board lostLaterSession) 7 8 = Some (mkCell 7 8 true true false 0) /\
  isMine (mkCell 7 8 true true false 0) = true /\
  (isRevealed (mkCell 7 8 true true false 0) = true <-> status lostLaterSession = lost).
Proof.
  split; [apply reachable_lostLaterSession|]. split; [reflexivity|].
  split; [reflexivity|].
  apply (mine_revealed_iff_lost lostLaterSession 7 8 (mkCell 7 8 true true false 0));
    [apply reachable_lostLaterSession | reflexivity..].
Defined.


(** [reachable_counts] at the cell [laterSession] was started from. *)
Lemma reachable_counts_witness :
  reachable laterSession /\ started laterSession = true /\
  cellAt (board laterSession) 0 7 = Some (mkCell 0 7 false true false 2) /\
  isMine (mkCell 0 7 false true false 2) = false /\
  adjacent (mkCell 0 7 false true false 2) = mineNeighbours (board laterSession) (0, 7).
Proof.
  split; [apply reachable_laterSession|]. split; [reflexivity|].
  split; [reflexivity|]. split; [reflexivity|].
  apply (reachable_counts laterSession 0 7 (mkCell 0 7 false true false 2));
    [apply reachable_laterSession | reflexivity..].
Defined.

(** [click_monotone] at the flagged mine of [laterSession], for the click
    that loses the game. *)
Lemma click_monotone_witness :
  reachable laterSession /\
  handleCellClick laterSession 7 8 [] = Returned lostLaterSession /\
  cellAt (board laterSession) 8 8 = Some (mkCell 8 8 true false true 0) /\
  exists c', cellAt (board lostLaterSession) 8 8 = Some c' /\
    (isRevealed (mkCell 8 8 true false true 0) = true -> isRevealed c' = true) /\
    (isFlagged (mkCell 8 8 true false true 0) = true -> isFlagged c' = true) /\
    (started laterSession = true ->
     isMine c' = isMine (mkCell 8 8 true false true 0) /\
     adjacent c' = adjacent (mkCell 8 8 true false true 0)).
Proof.
  assert (handleCellClick laterSession 7 8 [] = Returned lostLaterSession) as Hres
    by (vm_compute; reflexivity).
  split; [apply reachable_laterSession|]. split; [exact Hres|]. split; [reflexivity|].
  apply (click_monotone laterSession 7 8 [] lostLaterSession 8 8
           (mkCell 8 8 true false true 0));
    [apply reachable_laterSession | exact Hres | reflexivity].
Defined.

(** [click_reveals] for the click on a mine of [laterSession]. *)
Lemma click_reveals_witness :
  reachable laterSession /\
  cellAt (board laterSession) 7 8 = Some (mkCell 7 8 true false false 0) /\
  cellDisabled (status laterSession) (mkCell 7 8 true false false 0) = false /\
  isFlagged (mkCell 7 8 true false false 0) = false /\
  handleCellClick laterSession 7 8 [] = Returned lostLaterSession /\
  exists c', cellAt (board lostLaterSession) 7 8 = Some c' /\ isRevealed c' = true /\
    (status lostLaterSession = lost <-> isMine c' = true).
Proof.
  assert (handleCellClick laterSession 7 8 [] = Returned lostLaterSession) as Hres
    by (vm_compute; reflexivity).
  split; [apply reachable_laterSession|]. split; [reflexivity|].
  split; [reflexivity|]. split; [reflexivity|]. split; [exact Hres|].
  apply (click_reveals laterSession 7 8 [] lostLaterSession
           (mkCell 7 8 true false false 0));
    [apply reachable_laterSession | reflexivity.. | exact Hres].
Defined.

(** [rightClick_toggles] for the flag that [flaggedSession] has and
    [firstSession] has not. *)
Lemma rightClick_toggles_witness :
  status firstSession = playing /\ started firstSession = true /\
  cellAt (board firstSession) 8 8 = Some (mkCell 8 8 true false false 0) /\
  isRevealed (mkCell 8 8 true false false 0) = false /\
  exists s', handleCellRightClick firstSession 8 8 = Returned s' /\
    difficulty s' = difficulty firstSession /\ status s' = status firstSession /\
    started s' = started firstSession /\ timer s' = timer firstSession /\
    cellAt (board s') 8 8
    = Some (setFlagged (negb (isFlagged (mkCell 8 8 true false false 0)))
              (mkCell 8 8 true false false 0)) /\
    (forall px py, (px, py) <> (8, 8) ->
       cellAt (board s') px py = cellAt (board firstSession) px py) /\
    minesLeft s' = minesLeft firstSession
                   + (if isFlagged (mkCell 8 8 true false false 0) then 1 else -1).
Proof.
  split; [reflexivity|]. split; [reflexivity|]. split; [reflexivity|].
  split; [reflexivity|].
  apply (rightClick_toggles firstSession 8 8 (mkCell 8 8 true false false 0));
    reflexivity.
Defined.

(** [rightClick_twice] from [firstSession] to [flaggedSession] and back. *)
Lemma rightClick_twice_witness :
  handleCellRightClick firstSession 8 8 = Returned flaggedSession /\
  handleCellRightClick flaggedSession 8 8 = Returned firstSession /\
  firstSession = firstSession.
Proof.
  assert (handleCellRightClick firstSession 8 8 = Returned flaggedSession) as H1
    by (vm_compute; reflexivity).
  assert (handleCellRightClick flaggedSession 8 8 = Returned firstSession) as H2
    by (vm_compute; reflexivity).
  split; [exact H1|]. split; [exact H2|].
  apply (rightClick_twice firstSession flaggedSession firstSession 8 8 H1 H2).
Defined.

(** [cellContent_reachable] at a mine of [lostLaterSession], which shows a
    bomb. *)
Lemma cellContent_reachable_witness :
  reachable lostLaterSession /\
  cellAt (board lostLaterSession) 7 8 = Some (mkCell 7 8 true true false 0) /\
  isMine (mkCell 7 8 true true false 0) = true /\ status lostLaterSession = lost.
Proof.
  split; [apply reachable_lostLaterSession|]. split; [reflexivity|].
  apply (cellContent_reachable lostLaterSession 7 8 (mkCell 7 8 true true false 0));
    [apply reachable_lostLaterSession | reflexivity].
Defined.

(** [numberColour_defined] at the cell [laterSession] was started from,
    which shows a 2. *)
Lemma numberColour_defined_witness :
  reachable laterSession /\
  cellAt (board laterSession) 0 7 = Some (mkCell 0 7 false true false 2) /\
  numberColour (mkCell 0 7 false true false 2) = Some (Some "text-[#00BFAE]") /\
  is_Some (Some "text-[#00BFAE]").
Proof.
  split; [apply reachable_laterSession|]. split; [reflexivity|].
  split; [reflexivity|].
  apply (numberColour_defined laterSession 0 7 (mkCell 0 7 false true false 2));
    [apply reachable_laterSession | reflexivity..].
Defined.

(** [playing_has_move] in [laterSession]. *)
Lemma playing_has_move_witness :
  reachable laterSession /\ status laterSession = playing /\
  exists x y c, cellAt (board laterSession) x y = Some c /\
    isMine c = false /\ isRevealed c = false.
Proof.
  split; [apply reachable_laterSession|]. split; [reflexivity|].
  apply (playing_has_move laterSession reachable_laterSession). reflexivity.
Defined.

(** [handlers_never_throw] in the first corner of [laterSession]. *)
Lemma handlers_never_throw_witness :
  reachable laterSession /\ inBounds 9 9 (0, 0) /\ Forall (inBounds 9 9) [] /\
  ((exists s', handleCellClick laterSession 0 0 [] = Returned s') \/
   handleCellClick laterSession 0 0 [] = Running) /\
  exists s', handleCellRightClick laterSession 0 0 = Returned s'.
Proof.
  split; [apply reachable_laterSession|]. split; [apply inBounds_origin; lia|].
  split; [constructor|].
  apply (handlers_never_throw laterSession 0 0 [] reachable_laterSession);
    [apply (inBounds_origin 9 9); lia | constructor].
Defined.

(** [first_click_completes] for a first click in the first corner, under
    round-robin draws. *)
Lemma first_click_completes_witness :
  reachable initialSession /\ started initialSession = false /\
  inBounds 9 9 (0, 0) /\ fairDraws 9 9 (roundRobin 9 9) /\
  exists n s', handleCellClick initialSession 0 0 (firstDraws (roundRobin 9 9) n)
               = Returned s' /\
    started s' = true /\ status s' <> lost.
Proof.
  assert (fairDraws 9 9 (roundRobin 9 9)) as Hfair by (apply fairDraws_roundRobin; lia).
  split; [constructor|]. split; [reflexivity|]. split; [apply inBounds_origin; lia|].
  split; [exact Hfair|].
  apply (first_click_completes initialSession 0 0 (roundRobin 9 9));
    [constructor | reflexivity | apply (inBounds_origin 9 9); lia | exact Hfair].
Defined.

(** [revealCell_numbered] at the cell of [smallBoard] between its two
    mines. *)
Lemma revealCell_numbered_witness :
  Rect smallBoard 3 4 /\
  cellAt smallBoard 2 1 = Some (mkCell 2 1 false false false 2) /\
  revealCell smallBoard 2 1 = Done (update smallBoard 2 1 setRevealed).
Proof.
  split; [apply Rect_smallBoard|]. split; [reflexivity|].
  apply (revealCell_numbered smallBoard 3 4 2 1 (mkCell 2 1 false false false 2));
    [apply Rect_smallBoard | reflexivity.. | left; simpl; lia].
Defined.

(** [placeMines_mines_drawn] at the first mine of [smallBoard]. *)
Lemma placeMines_mines_drawn_witness :
  Rect (createEmptyBoard 3 4) 3 4 /\ mineFree (createEmptyBoard 3 4) /\
  placeMines (createEmptyBoard 3 4) 2 (0, 0) smallDraws = Done smallBoard /\
  mineAt smallBoard (1, 1) = true /\ (1, 1) ∈ smallDraws.
Proof.
  split; [apply (Rect_createEmptyBoard 3 4)|]. split; [apply mineFree_createEmptyBoard|].
  split; [apply placeMines_smallBoard|]. split; [reflexivity|].
  apply (placeMines_mines_drawn (createEmptyBoard 3 4) 3 4 2 (0, 0) smallDraws smallBoard);
    [apply (Rect_createEmptyBoard 3 4) | apply mineFree_createEmptyBoard
    | apply placeMines_smallBoard | reflexivity].
Defined.
